(** * The fetch applet of the Alpine Package Keeper (src/fetch.c)

    A shallow embedding of [fetch_package] and [fetch_main] together with
    the part of the host (file system, descriptors, byte streams, the
    resolution engine) they talk to, and the properties of the applet
    proved over it.

    The C functions run against a [world]: the directory entries, the
    files they name, the open descriptors, the live resolution sessions and
    the chronological trace of everything the applet did.  Functions whose
    bodies live in other translation units are taken as fields of
    [extern].

    Objects of type [int], [unsigned], [off_t] and [size_t] are modelled by
    the integers they denote ([Z], or [nat] for the slot index [i]); the
    headers that fix the widths of [pkg->size] and of the result of
    [apk_istream_splice] are not part of fetch.c. *)

From Stdlib Require Import ZArith Lia Ascii.
From stdpp Require Import gmap strings list fin_maps.

Local Open Scope Z_scope.

(** ** Data model *)

(** [struct apk_package], restricted to the members fetch.c reads.
    [pkg_name] is [pkg->name->name]; [pkg_repos] is the [unsigned]
    repository bit mask. *)
Record apk_package := {
  pkg_name : string;
  pkg_version : string;
  pkg_size : Z;
  pkg_repos : Z;
}.

(** [struct apk_name]: [name_pkgs] is the [pkgs] array pointer, [None]
    standing for [NULL]. *)
Record apk_name := {
  name_name : string;
  name_pkgs : option (list apk_package);
}.

Record apk_repository := { url : string }.

(** [struct apk_database]: the repository slots [db->repos[i]] and the name
    table consulted by [apk_db_get_name]. *)
Record apk_database := {
  db_repos : nat -> apk_repository;
  db_names : string -> apk_name;
}.

Record apk_dependency := {
  dep_name : apk_name;
  result_mask : Z;
}.

Record apk_change := { newpkg : apk_package }.

(** [struct apk_state]: a resolution session and its ordered change list. *)
Record apk_state := {
  state_id : nat;
  change_list : list apk_change;
}.

Record apk_istream := { is_token : nat }.

(** [struct fetch_ctx]; [outdir] is [None] for a [NULL] pointer. *)
Record fetch_ctx := {
  flags : Z;
  outdir : option string;
}.

Definition FETCH_RECURSIVE : Z := 1.
Definition FETCH_STDOUT : Z := 2.
Definition FETCH_LINK : Z := 4.
Definition STDOUT_FILENO : Z := 1.

(** ** The host *)

(** A directory entry: a name of the file with inode [ino] (several
    entries can name the same file, being hard links of each other), or a
    symbolic link. *)
Inductive node :=
  | File (ino : Z)
  | Symlink (target : string).

(** What the applet does to the outside, in the order it does it.
    [Call_fetch_package] is recorded at the two call sites in [fetch_main];
    everything else is recorded by the operation itself. *)
Inductive event :=
  | Message (text : string)
  | Error (text : string)
  | Call_fetch_package (pkg : apk_package)
  | Sys_link (oldpath newpath : string) (r : Z)
  | Sys_creat (path : string) (fd : Z)
  | Sys_close (fd : Z)
  | Sys_unlink (path : string)
  | Stream_open (locator : string) (opened : bool)
  | Stream_splice (ist : apk_istream) (fd : Z) (size : Z) (r : Z)
  | Stream_close (ist : apk_istream)
  | State_new (id : nat)
  | State_unref (id : nat)
  | Db_open (r : Z)
  | Db_close.

Record world := {
  w_fs : gmap string node;       (* directory entries by path *)
  w_inodes : gmap Z Z;           (* the files, by inode: their st_size *)
  w_fds : gmap Z string;         (* open descriptors: the path opened *)
  w_states : gset nat;           (* resolution sessions not yet released *)
  w_next_state : nat;
  w_trace : list event;
}.

(** Everything fetch.c uses but does not define: constants and functions of
    the other translation units, and the answers of the host that the
    directory entries alone do not determine. *)
Record extern := {
  APK_MAX_REPOS : nat;
  APK_SIMULATE : Z;
  apk_flags : Z;
  APK_VERSION_GREATER : Z;
  APK_DEPMASK_REQUIRE : Z;
  apk_url_local_file : string -> bool;
  apk_istream_from_url : string -> option apk_istream;
  apk_istream_splice : apk_istream -> Z -> Z -> Z;
  apk_pkg_version_compare : apk_package -> apk_package -> Z;
  apk_db_open : Z * apk_database;
  apk_state_lock_dependency :
    apk_database -> apk_dependency -> Z * list apk_change;
  (* errno of creat / link / unlink on a path where the entries allow it;
     0 = none *)
  creat_errno : string -> Z;
  link_errno : string -> string -> Z;
  unlink_errno : string -> Z;
  strerror : Z -> string;
  (* bytes found in automatic buffers that were never written *)
  stack_outfile : string;
  stack_real_infile : string;
  stack_past_real_infile : string;
}.

Definition set_fs (f : gmap string node) (w : world) : world :=
  {| w_fs := f; w_inodes := w_inodes w; w_fds := w_fds w;
     w_states := w_states w; w_next_state := w_next_state w;
     w_trace := w_trace w |}.

Definition set_inodes (files : gmap Z Z) (w : world) : world :=
  {| w_fs := w_fs w; w_inodes := files; w_fds := w_fds w;
     w_states := w_states w; w_next_state := w_next_state w;
     w_trace := w_trace w |}.

Definition emit (e : event) (w : world) : world :=
  {| w_fs := w_fs w; w_inodes := w_inodes w; w_fds := w_fds w;
     w_states := w_states w; w_next_state := w_next_state w;
     w_trace := w_trace w ++ [e] |}.

Definition apk_message (text : string) : world -> world := emit (Message text).
Definition apk_error (text : string) : world -> world := emit (Error text).

(** [lstat(path, &st)]: [Some st.st_size] when it returns 0.  A symbolic
    link is not followed; its size is the length of its target. *)
Definition lstat (path : string) (w : world) : option Z :=
  match w_fs w !! path with
  | Some (File i) => w_inodes w !! i
  | Some (Symlink t) => Some (Z.of_nat (String.length t))
  | None => None
  end.

(** [readlink(path, buf, bufsiz)]: the bytes placed in [buf] (at most
    [bufsiz], no terminator), or [None] for -1. *)
Definition readlink (path : string) (bufsiz : nat) (w : world) : option string :=
  match w_fs w !! path with
  | Some (Symlink t) => Some (String.substring 0 bufsiz t)
  | _ => None
  end.

(** [link(oldpath, newpath)]: needs an entry at [oldpath], none at
    [newpath], and the host's consent (same device, permissions).  The new
    entry names the inode the old one names: what is written through one
    of the two paths afterwards is what [lstat] sees at the other. *)
Definition link (X : extern) (oldpath newpath : string) (w : world) : Z * world :=
  match w_fs w !! oldpath, w_fs w !! newpath with
  | Some nd, None =>
      if link_errno X oldpath newpath =? 0
      then (0, emit (Sys_link oldpath newpath 0)
                 (set_fs (<[newpath := nd]> (w_fs w)) w))
      else (-1, emit (Sys_link oldpath newpath (-1)) w)
  | _, _ => (-1, emit (Sys_link oldpath newpath (-1)) w)
  end.

(** The path [creat] really opens: symbolic links at [path] are followed,
    giving up after [fuel] of them. *)
Fixpoint follow (fuel : nat) (f : gmap string node) (path : string) : option string :=
  match f !! path with
  | Some (Symlink t) =>
      match fuel with
      | O => None
      | S fuel' => follow fuel' f t
      end
  | _ => Some path
  end.

Definition MAXSYMLINKS : nat := 40.

(** The least number from [n] on that is not a key of [m], trying [fuel]
    numbers before settling for the next. *)
Fixpoint lowest_free {A} (m : gmap Z A) (fuel : nat) (n : Z) : Z :=
  match fuel with
  | O => n
  | S fuel' =>
      match m !! n with
      | Some _ => lowest_free m fuel' (n + 1)
      | None => n
      end
  end.

(** The lowest number not in use in a table: the descriptor a successful
    [open] returns.  It is also the inode number given to a new file, where
    any number not in use would do. *)
Definition unused {A} (m : gmap Z A) : Z := lowest_free m (size m) 0.

(** The value left in [errno] by a [creat] that fails: [ELOOP] when the
    symbolic links at [path] are too many, else the host's reason. *)
Definition ELOOP : Z := 40.

Definition creat_error (X : extern) (path : string) (w : world) : Z :=
  match follow MAXSYMLINKS (w_fs w) path with
  | Some _ => creat_errno X path
  | None => ELOOP
  end.

(** [creat(path, 0644)]: the descriptor (or -1), [errno], and the world.
    The descriptor is the lowest one not open, so it is 1 when standard
    output was closed.  The file at the path opened is cut to length 0,
    under all its names; where there was no entry a new file is made. *)
Definition creat (X : extern) (path : string) (w : world) : Z * Z * world :=
  match follow MAXSYMLINKS (w_fs w) path with
  | Some p =>
      if creat_errno X path =? 0 then
        let fd := unused (w_fds w) in
        let ino := match w_fs w !! p with
                   | Some (File i) => i
                   | _ => unused (w_inodes w)
                   end in
        (fd, 0,
         emit (Sys_creat path fd)
           {| w_fs := <[p := File ino]> (w_fs w);
              w_inodes := <[ino := 0]> (w_inodes w);
              w_fds := <[fd := p]> (w_fds w);
              w_states := w_states w; w_next_state := w_next_state w;
              w_trace := w_trace w |})
      else (-1, creat_errno X path, emit (Sys_creat path (-1)) w)
  | None => (-1, ELOOP, emit (Sys_creat path (-1)) w)
  end.

Definition close (fd : Z) (w : world) : world :=
  emit (Sys_close fd)
    {| w_fs := w_fs w; w_inodes := w_inodes w;
       w_fds := delete fd (w_fds w);
       w_states := w_states w; w_next_state := w_next_state w;
       w_trace := w_trace w |}.

(** [unlink(path)]: the value returned and the world.  When the host
    allows it the entry at [path] is gone afterwards (the file stays
    under its other names); when it does not, or there is no entry, -1 is
    returned and the entries stay as they are. *)
Definition unlink (X : extern) (path : string) (w : world) : Z * world :=
  match w_fs w !! path with
  | Some _ =>
      if unlink_errno X path =? 0
      then (0, emit (Sys_unlink path) (set_fs (delete path (w_fs w)) w))
      else (-1, emit (Sys_unlink path) w)
  | None => (-1, emit (Sys_unlink path) w)
  end.

(** [n] more bytes written through descriptor [fd]: the file named by the
    path the descriptor was opened on grows by [n].  (Between opening a
    descriptor and writing to it fetch.c does nothing to that path.) *)
Definition write_fd (fd : Z) (n : Z) (w : world) : world :=
  match w_fds w !! fd with
  | Some p =>
      match w_fs w !! p with
      | Some (File i) =>
          match w_inodes w !! i with
          | Some k => set_inodes (<[i := k + n]> (w_inodes w)) w
          | None => w
          end
      | _ => w
      end
  | None => w
  end.

(** The call [apk_istream_from_url(infile)]. *)
Definition istream_from_url (X : extern) (locator : string) (w : world)
  : option apk_istream * world :=
  match apk_istream_from_url X locator with
  | Some ist => (Some ist, emit (Stream_open locator true) w)
  | None => (None, emit (Stream_open locator false) w)
  end.

(** Modelled from the spec: the effect of [apk_istream_splice] (defined in
    another translation unit) on its destination, "copy bytes from source
    to sink up to the package's declared size ... -> bytes_copied": the
    bytes counted in a non-negative result are the bytes that reached the
    descriptor.  The result itself is the value of [apk_istream_splice X],
    the value line 116 stores in [r]. *)
Definition istream_splice (X : extern) (ist : apk_istream) (fd size : Z) (w : world)
  : Z * world :=
  let r := apk_istream_splice X ist fd size in
  (r, emit (Stream_splice ist fd size r) (write_fd fd (Z.max 0 r) w)).

Definition istream_close (ist : apk_istream) : world -> world :=
  emit (Stream_close ist).

(** ** fetch_package *)

(** [snprintf(buf, n, ...)] keeps the first [n - 1] bytes of the formatted
    text. *)
Definition snprintf (n : nat) (text : string) : string :=
  String.substring 0 (n - 1) text.

(** The format ["%s/%s-%s.apk"] of both path buffers. *)
Definition apk_path (dir : string) (pkg : apk_package) : string :=
  dir +:+ "/" +:+ pkg_name pkg +:+ "-" +:+ pkg_version pkg +:+ ".apk".

(** [flags & mask] as a condition. *)
Definition has_flag (flags mask : Z) : bool := negb (Z.land flags mask =? 0).

(** Modelled from the spec: the [BIT] macro (defined in a header), the
    mask of the [x]-th member of the "bitmask repository-membership". *)
Definition BIT (x : nat) : Z := Z.shiftl 1 (Z.of_nat x).

(** [for (i = ...; i < APK_MAX_REPOS; i++) if (repos & BIT(i)) break;] with
    [left] slots still to look at; the result is the final [i]. *)
Fixpoint repo_scan (repos : Z) (left i : nat) : nat :=
  match left with
  | O => i
  | S left' =>
      if has_flag repos (BIT i) then i else repo_scan repos left' (S i)
  end.

(** ** Traces *)

(** [since w w' evs]: from [w] to [w'] exactly the events [evs] happened. *)
Definition since (w w' : world) (evs : list event) : Prop :=
  w_trace w' = w_trace w ++ evs.

(** A failed [link] and a successful [creat] are all that can precede the
    opening of the stream; closing the descriptor is all that can follow
    the stream before the verdict. *)
Definition preparing (e : event) : Prop :=
  match e with
  | Sys_link _ _ r => r = -1
  | Sys_creat _ fd => 0 <= fd
  | _ => False
  end.

Definition closing (e : event) : Prop :=
  match e with
  | Sys_close _ => True
  | _ => False
  end.

(** The events of the streaming fetch proper: creating the destination,
    opening the stream, splicing, closing the stream. *)
Definition streaming (e : event) : bool :=
  match e with
  | Sys_creat _ _ | Stream_open _ _ | Stream_splice _ _ _ _ | Stream_close _ => true
  | _ => false
  end.

(** The packages on which [fetch_package] was called, in order. *)
Fixpoint calls (evs : list event) : list apk_package :=
  match evs with
  | [] => []
  | Call_fetch_package pkg :: evs => pkg :: calls evs
  | _ :: evs => calls evs
  end.

Section Fetch.

Variable X : extern.

Definition find_repo (pkg : apk_package) : nat :=
  repo_scan (pkg_repos pkg) (APK_MAX_REPOS X) 0.

(** The contents of [outfile]: written by [snprintf] only when not in
    stdout mode. *)
Definition outfile (fctx : fetch_ctx) (pkg : apk_package) : string :=
  if has_flag (flags fctx) FETCH_STDOUT then stack_outfile X
  else snprintf 256
         (apk_path (match outdir fctx with Some d => d | None => "." end) pkg).

Definition infile (db : apk_database) (pkg : apk_package) (i : nat) : string :=
  snprintf 256 (apk_path (url (db_repos db i)) pkg).

(** The skip-if-present test of lines 63-72. *)
Definition already_fetched (fctx : fetch_ctx) (pkg : apk_package) (w : world) : bool :=
  negb (has_flag (flags fctx) FETCH_STDOUT) &&
  match lstat (outfile fctx pkg) w with
  | Some st_size => st_size =? pkg_size pkg
  | None => false
  end.

(** The text [link] reads from [real_infile] after lines 97-99. *)
Definition real_infile (path : string) (w : world) : string :=
  match readlink path 256 w with
  | Some buf =>
      let n := String.length buf in
      if (n =? 0)%nat then stack_real_infile X
      else if (n <? 256)%nat then buf
      else buf +:+ stack_past_real_infile X
  | None => stack_real_infile X
  end.

(** The texts of the messages. *)
Definition downloading (pkg : apk_package) : string :=
  "Downloading " +:+ pkg_name pkg +:+ "-" +:+ pkg_version pkg.
Definition not_present (pkg : apk_package) : string :=
  pkg_name pkg +:+ "-" +:+ pkg_version pkg +:+ ": not present in any repository".
Definition unable_to_download (locator : string) : string :=
  "Unable to download '" +:+ locator +:+ "'".
Definition creat_failed (path : string) (errno : Z) : string :=
  path +:+ ": " +:+ strerror X errno.

(** Lines 116-126, once the stream [ist] and the descriptor [fd] are there. *)
Definition fetch_stream (fctx : fetch_ctx) (db : apk_database)
    (pkg : apk_package) (i : nat) (ist : apk_istream) (fd : Z) (w : world)
  : Z * world :=
  let '(r, w) := istream_splice X ist fd (pkg_size pkg) w in
  let w := istream_close ist w in
  let w := if fd =? STDOUT_FILENO then w else close fd w in
  if negb (r =? pkg_size pkg) then
    let w := apk_error (unable_to_download (infile db pkg i)) w in
    let '(_, w) := unlink X (outfile fctx pkg) w in
    (-1, w)
  else (0, w).

(** Lines 110-126, once the descriptor [fd] is chosen. *)
Definition fetch_to (fctx : fetch_ctx) (db : apk_database)
    (pkg : apk_package) (i : nat) (fd : Z) (w : world) : Z * world :=
  match istream_from_url X (infile db pkg i) w with
  | (None, w) => (-1, apk_error (unable_to_download (infile db pkg i)) w)
  | (Some ist, w) => fetch_stream fctx db pkg i ist fd w
  end.

(** Lines 103-108 and on. *)
Definition fetch_create (fctx : fetch_ctx) (db : apk_database)
    (pkg : apk_package) (i : nat) (w : world) : Z * world :=
  let '(fd, errno, w) := creat X (outfile fctx pkg) w in
  if fd <? 0 then (-1, apk_error (creat_failed (outfile fctx pkg) errno) w)
  else fetch_to fctx db pkg i fd w.

Definition fetch_package (fctx : fetch_ctx) (db : apk_database)
    (pkg : apk_package) (w : world) : Z * world :=
  if already_fetched fctx pkg w then (0, w)
  else
    let w := apk_message (downloading pkg) w in
    let i := find_repo pkg in
    if (APK_MAX_REPOS X <=? i)%nat then (-1, apk_error (not_present pkg) w)
    else if has_flag (apk_flags X) (APK_SIMULATE X) then (0, w)
    else if has_flag (flags fctx) FETCH_STDOUT then
      fetch_to fctx db pkg i STDOUT_FILENO w
    else if (has_flag (flags fctx) FETCH_LINK &&
             apk_url_local_file X (infile db pkg i))%bool then
      let '(r, w') :=
        link X (real_infile (infile db pkg i) w) (outfile fctx pkg) w in
      if r =? 0 then (0, w') else fetch_create fctx db pkg i w'
    else fetch_create fctx db pkg i w.

(** ** fetch_main *)

(** Modelled from the spec: [apk_db_get_name] (defined in the database
    unit), "lookup_name(Database, text) -> NameRecord". *)
Definition apk_db_get_name (db : apk_database) (text : string) : apk_name :=
  db_names db text.

(** Modelled from the spec: [apk_state_new] (defined in the resolution
    engine), "new(Database) -> Session": a fresh session, live until it is
    released. *)
Definition apk_state_new (db : apk_database) (w : world) : apk_state * world :=
  let id := w_next_state w in
  ({| state_id := id; change_list := [] |},
   emit (State_new id)
     {| w_fs := w_fs w; w_inodes := w_inodes w; w_fds := w_fds w;
        w_states := {[id]} ∪ w_states w; w_next_state := S id;
        w_trace := w_trace w |}).

(** Modelled from the spec: [apk_state_unref] (defined in the resolution
    engine), "release(Session)", for a session with this one owner. *)
Definition apk_state_unref (state : apk_state) (w : world) : world :=
  emit (State_unref (state_id state))
    {| w_fs := w_fs w; w_inodes := w_inodes w; w_fds := w_fds w;
       w_states := w_states w ∖ {[state_id state]};
       w_next_state := w_next_state w;
       w_trace := w_trace w |}.

Definition apk_db_close : world -> world := emit Db_close.

(** How a piece of the body of the [for] loop over [argv] ends: it runs on
    to what follows it, it leaves the loop for the label [err] ([goto err]
    or [break]), or it dereferences a [NULL] package. *)
Inductive flow :=
  | Continue (r : Z) (w : world)
  | Leave (r : Z) (w : world)
  | Fault.

(** The call of [fetch_package] at lines 159 and 175. *)
Definition call_fetch_package (fctx : fetch_ctx) (db : apk_database)
    (pkg : apk_package) (w : world) : Z * world :=
  fetch_package fctx db pkg (emit (Call_fetch_package pkg) w).

(** Lines 158-162: [list_for_each_entry] over the change list. *)
Fixpoint fetch_changes (fctx : fetch_ctx) (db : apk_database)
    (changes : list apk_change) (r : Z) (w : world) : flow :=
  match changes with
  | [] => Continue r w
  | change :: rest =>
      let '(r, w) := call_fetch_package fctx db (newpkg change) w in
      if negb (r =? 0) then Leave r w
      else fetch_changes fctx db rest r w
  end.

(** Lines 168-173: the selection loop, [pkg] being the selection so far. *)
Fixpoint select_pkg (items : list apk_package) (pkg : option apk_package)
  : option apk_package :=
  match items with
  | [] => pkg
  | item :: rest =>
      select_pkg rest
        (match pkg with
         | None => Some item
         | Some cur =>
             if apk_pkg_version_compare X item cur =? APK_VERSION_GREATER X
             then Some item else pkg
         end)
  end.

(** Lines 140-182: the body of the loop for one argument. *)
Definition fetch_arg (fctx : fetch_ctx) (db : apk_database) (arg : string)
    (w : world) : flow :=
  let dep := {| dep_name := apk_db_get_name db arg;
                result_mask := APK_DEPMASK_REQUIRE X |} in
  if has_flag (flags fctx) FETCH_RECURSIVE then
    let '(state, w) := apk_state_new db w in
    let '(r, changes) := apk_state_lock_dependency X db dep in
    let state := {| state_id := state_id state; change_list := changes |} in
    if negb (r =? 0) then
      let w := apk_state_unref state w in
      let w := apk_error ("Unable to install '" +:+ name_name (dep_name dep)
                          +:+ "'") w in
      Leave r w
    else
      match fetch_changes fctx db (change_list state) r w with
      | Continue r w => Continue r (apk_state_unref state w)
      | other => other
      end
  else
    match name_pkgs (dep_name dep) with
    | Some items =>
        match select_pkg items None with
        | Some pkg =>
            let '(r, w) := call_fetch_package fctx db pkg w in
            if negb (r =? 0) then Leave r w else Continue r w
        | None => Fault
        end
    | None =>
        Leave (-1)
          (apk_message ("Unable to get '" +:+ name_name (dep_name dep) +:+ "'") w)
    end.

(** Lines 139-183: the loop over the arguments. *)
Fixpoint fetch_args (fctx : fetch_ctx) (db : apk_database)
    (argv : list string) (r : Z) (w : world) : flow :=
  match argv with
  | [] => Continue r w
  | arg :: rest =>
      match fetch_arg fctx db arg w with
      | Continue r w => fetch_args fctx db rest r w
      | other => other
      end
  end.

(** [fetch_main]; [None] when it dereferences a [NULL] package. *)
Definition fetch_main (fctx : fetch_ctx) (argv : list string) (w : world)
  : option (Z * world) :=
  let '(r, db) := apk_db_open X in
  let w := emit (Db_open r) w in
  if negb (r =? 0) then Some (r, w)
  else
    match fetch_args fctx db argv r w with
    | Continue r w | Leave r w => Some (r, apk_db_close w)
    | Fault => None
    end.

(** ** Ways to end *)

(** How a call of [fetch_package] from [w] can end: the value returned, the
    world left, and the events in between. *)
Inductive ending (fctx : fetch_ctx) (db : apk_database) (pkg : apk_package)
    (w : world) : Z -> world -> list event -> Prop :=
  | Skipped :
      already_fetched fctx pkg w = true ->
      ending fctx db pkg w 0 w []
  | No_repository w' :
      (APK_MAX_REPOS X <= find_repo pkg)%nat ->
      w_fs w' = w_fs w ->
      ending fctx db pkg w (-1) w'
        [Message (downloading pkg); Error (not_present pkg)]
  | Simulated w' :
      has_flag (apk_flags X) (APK_SIMULATE X) = true ->
      w_fs w' = w_fs w ->
      ending fctx db pkg w 0 w' [Message (downloading pkg)]
  | Linked w' :
      (find_repo pkg < APK_MAX_REPOS X)%nat ->
      has_flag (flags fctx) FETCH_STDOUT = false ->
      has_flag (flags fctx) FETCH_LINK = true ->
      apk_url_local_file X (infile db pkg (find_repo pkg)) = true ->
      ending fctx db pkg w 0 w'
        [Message (downloading pkg);
         Sys_link (real_infile (infile db pkg (find_repo pkg)) w)
           (outfile fctx pkg) 0]
  | Creat_failed w' pre errno :
      (find_repo pkg < APK_MAX_REPOS X)%nat ->
      Forall preparing pre ->
      w_fs w' = w_fs w ->
      ending fctx db pkg w (-1) w'
        (Message (downloading pkg) :: pre ++
         [Sys_creat (outfile fctx pkg) (-1);
          Error (creat_failed (outfile fctx pkg) errno)])
  | Open_failed w' pre :
      (find_repo pkg < APK_MAX_REPOS X)%nat ->
      Forall preparing pre ->
      ending fctx db pkg w (-1) w'
        (Message (downloading pkg) :: pre ++
         [Stream_open (infile db pkg (find_repo pkg)) false;
          Error (unable_to_download (infile db pkg (find_repo pkg)))])
  | Short w' pre ist fd r0 cl :
      (find_repo pkg < APK_MAX_REPOS X)%nat ->
      Forall preparing pre -> Forall closing cl ->
      r0 <> pkg_size pkg ->
      (unlink_errno X (outfile fctx pkg) = 0 ->
       w_fs w' !! outfile fctx pkg = None) ->
      ending fctx db pkg w (-1) w'
        (Message (downloading pkg) :: pre ++
         Stream_open (infile db pkg (find_repo pkg)) true ::
         Stream_splice ist fd (pkg_size pkg) r0 :: Stream_close ist :: cl ++
         [Error (unable_to_download (infile db pkg (find_repo pkg)));
          Sys_unlink (outfile fctx pkg)])
  | Complete w' pre ist fd cl :
      (find_repo pkg < APK_MAX_REPOS X)%nat ->
      Forall preparing pre -> Forall closing cl ->
      (has_flag (flags fctx) FETCH_STDOUT = false ->
       (forall t, w_fs w !! outfile fctx pkg <> Some (Symlink t)) ->
       0 <= pkg_size pkg ->
       lstat (outfile fctx pkg) w' = Some (pkg_size pkg)) ->
      ending fctx db pkg w 0 w'
        (Message (downloading pkg) :: pre ++
         Stream_open (infile db pkg (find_repo pkg)) true ::
         Stream_splice ist fd (pkg_size pkg) (pkg_size pkg) ::
         Stream_close ist :: cl).

(** [a] compares greater than [b]. *)
Definition greater (a b : apk_package) : Prop :=
  apk_pkg_version_compare X a b = APK_VERSION_GREATER X.

(** [fetch_package] is called on each of the packages in turn and returns
    0 every time. *)
Inductive fetched_all (fctx : fetch_ctx) (db : apk_database)
  : list apk_package -> world -> world -> Prop :=
  | fetched_nil w : fetched_all fctx db [] w w
  | fetched_cons pkg pkgs w w1 w2 :
      call_fetch_package fctx db pkg w = (0, w1) ->
      fetched_all fctx db pkgs w1 w2 ->
      fetched_all fctx db (pkg :: pkgs) w w2.

End Fetch.

(** ** fetch_parse *)

(** The value of a character constant. *)
Definition chr (c : Ascii.ascii) : Z := Z.of_N (Ascii.N_of_ascii c).

(** [fetch_parse]; [ctx] is the [struct fetch_ctx] it points to, [optarg]
    is [None] for a [NULL] pointer.  The result is the value returned and
    the context left. *)
Definition fetch_parse (ctx : fetch_ctx) (optch optindex : Z)
    (optarg : option string) : Z * fetch_ctx :=
  if optch =? chr "R"%char then
    (0, {| flags := Z.lor (flags ctx) FETCH_RECURSIVE; outdir := outdir ctx |})
  else if optch =? chr "s"%char then
    (0, {| flags := Z.lor (flags ctx) FETCH_STDOUT; outdir := outdir ctx |})
  else if optch =? chr "L"%char then
    (0, {| flags := Z.lor (flags ctx) FETCH_LINK; outdir := outdir ctx |})
  else if optch =? chr "o"%char then
    (0, {| flags := flags ctx; outdir := optarg |})
  else (-1, ctx).

(** An initialiser of [fetch_options]: the option character, the long
    name, the help text and, when given, the argument name of an option
    with [required_argument]. *)
Record apk_option := {
  opt_name : Z;
  opt_long : string;
  opt_help : string;
  opt_arg : option string;
}.

Definition fetch_options : list apk_option :=
  [ {| opt_name := chr "l"%char; opt_long := "link";
       opt_help := "Create hard links if possible"; opt_arg := None |};
    {| opt_name := chr "R"%char; opt_long := "recursive";
       opt_help := "Fetch the PACKAGE and all it's dependencies";
       opt_arg := None |};
    {| opt_name := chr "s"%char; opt_long := "stdout";
       opt_help := "Dump the .apk to stdout (incompatible with -o and -R)";
       opt_arg := None |};
    {| opt_name := chr "o"%char; opt_long := "output";
       opt_help := "Directory to place the PACKAGEs to";
       opt_arg := Some "DIR" |} ].

(** The three mode bits. *)
Definition mode_bit (mask : Z) : Prop :=
  mask = FETCH_RECURSIVE \/ mask = FETCH_STDOUT \/ mask = FETCH_LINK.

(** The letter that turns a mode on. *)
Definition mode_letter (optch mask : Z) : Prop :=
  optch = chr "R" /\ mask = FETCH_RECURSIVE \/
  optch = chr "s" /\ mask = FETCH_STDOUT \/
  optch = chr "L" /\ mask = FETCH_LINK.

(** ** Courses of a run *)

(** The link attempt of lines 94-102 failed, or was not made. *)
Definition link_skipped (X : extern) (fctx : fetch_ctx) (db : apk_database)
    (pkg : apk_package) (w : world) (lk : list event) : Prop :=
  lk = [] \/
  lk = [Sys_link (real_infile X (infile db pkg (find_repo X pkg)) w)
          (outfile X fctx pkg) (-1)].

(** The resolution sessions of a world: those live, and the next
    identifier. *)
Definition sessions (w : world) : gset nat * nat := (w_states w, w_next_state w).

(** The events between opening and closing the database. *)
Definition inner (e : event) : Prop :=
  match e with
  | Db_open _ | Db_close => False
  | _ => True
  end.

(** The world a [flow] carries, if any. *)
Definition flow_world (f : flow) : option world :=
  match f with
  | Continue _ w | Leave _ w => Some w
  | Fault => None
  end.

(** The events [fetch_package] itself can cause. *)
Definition package_event (e : event) : Prop :=
  match e with
  | Message _ | Error _ | Sys_link _ _ _ | Sys_creat _ _ | Sys_close _
  | Sys_unlink _ | Stream_open _ _ | Stream_splice _ _ _ _ | Stream_close _ => True
  | _ => False
  end.

(** ** Scenarios *)

Module Scenario.

Definition hello (v : string) (sz rmask : Z) : apk_package :=
  {| pkg_name := "hello"; pkg_version := v; pkg_size := sz; pkg_repos := rmask |}.

Definition db : apk_database :=
  {| db_repos := fun i =>
       {| url := if (i =? 0)%nat then "http://mirror" else "/srv/repo" |};
     db_names := fun s =>
       {| name_name := s;
          name_pkgs :=
            if String.eqb s "hello"
            then Some [hello "1.0" 10 1; hello "1.2" 12 1; hello "1.1" 11 1]
            else None |} |}.

(** The digit after the dot of a version ["1.2"], as a number. *)
Definition minor (v : string) : Z :=
  match String.get 2 v with
  | Some c => Z.of_nat (Ascii.nat_of_ascii c)
  | None => 0
  end.

(** A host with [apk_flags = aflags] whose streams, when [avail] is
    [Some n], open and yield [n] bytes, whose versions compare by their
    [minor], and whose resolution engine answers [plan]. *)
Definition host (aflags : Z) (avail : option Z)
    (plan : Z * list apk_change) : extern :=
  {| APK_MAX_REPOS := 32; APK_SIMULATE := 2; apk_flags := aflags;
     APK_VERSION_GREATER := 1; APK_DEPMASK_REQUIRE := 4;
     apk_url_local_file := fun s => String.eqb (String.substring 0 1 s) "/";
     apk_istream_from_url := fun _ =>
       match avail with Some _ => Some {| is_token := 0 |} | None => None end;
     apk_istream_splice := fun _ _ sz =>
       match avail with Some n => Z.min sz n | None => -1 end;
     apk_pkg_version_compare := fun a b =>
       match minor (pkg_version a) ?= minor (pkg_version b) with
       | Lt => -1 | Eq => 0 | Gt => 1
       end;
     apk_db_open := (0, db);
     apk_state_lock_dependency := fun _ _ => plan;
     creat_errno := fun _ => 0;
     link_errno := fun _ _ => 0;
     unlink_errno := fun _ => 0;
     strerror := fun _ => "Permission denied";
     stack_outfile := ""; stack_real_infile := "";
     stack_past_real_infile := "" |}.

(** No entries; the three standard descriptors are open on the terminal. *)
Definition nothing : world :=
  {| w_fs := ∅; w_inodes := ∅;
     w_fds := {[ 0 := "/dev/tty"; 1 := "/dev/tty"; 2 := "/dev/tty" ]};
     w_states := ∅; w_next_state := 0; w_trace := [] |}.

(** A world whose only entries are [entries], naming the [files]. *)
Definition holding (entries : gmap string node) (files : gmap Z Z) : world :=
  set_inodes files (set_fs entries nothing).

Definition into_cwd : fetch_ctx := {| flags := 0; outdir := None |}.

(** The package of most runs: 12 bytes, carried by repository 0. *)
Definition pkg12 : apk_package := hello "1.2" 12 1.

(** The same package carried by no repository. *)
Definition orphan : apk_package := hello "1.2" 12 0.

(** A resolution engine that is not asked anything. *)
Definition idle : Z * list apk_change := (0, []).

(** The destination already holds the 12 bytes. *)
Definition present : world :=
  holding {[ "./hello-1.2.apk" := File 1 ]} {[ 1 := 12 ]}.

(** Repository 1 is a local directory of symbolic links into a pool. *)
Definition linking : fetch_ctx := {| flags := FETCH_LINK; outdir := None |}.
Definition local12 : apk_package := hello "1.2" 12 2.
Definition mirror : world :=
  holding {[ "/srv/repo/hello-1.2.apk" := Symlink "/srv/pool/hello-1.2.apk";
             "/srv/pool/hello-1.2.apk" := File 1 ]}
          {[ 1 := 12 ]}.

(** The same, but the file in the pool has 7 bytes only. *)
Definition cut_short : world :=
  holding {[ "/srv/repo/hello-1.2.apk" := Symlink "/srv/pool/hello-1.2.apk";
             "/srv/pool/hello-1.2.apk" := File 1 ]}
          {[ 1 := 7 ]}.

(** The destination is a symbolic link to a file elsewhere, not yet
    there. *)
Definition redirected : world :=
  holding {[ "./hello-1.2.apk" := Symlink "/tmp/x" ]} ∅.

(** The destination holds 7 bytes of an earlier attempt. *)
Definition stale : world :=
  holding {[ "./hello-1.2.apk" := File 1 ]} {[ 1 := 7 ]}.

(** The host [X], except that [unlink] is refused with [EACCES]: the
    directory cannot be modified. *)
Definition read_only_directory (X : extern) : extern :=
  {| APK_MAX_REPOS := APK_MAX_REPOS X; APK_SIMULATE := APK_SIMULATE X;
     apk_flags := apk_flags X; APK_VERSION_GREATER := APK_VERSION_GREATER X;
     APK_DEPMASK_REQUIRE := APK_DEPMASK_REQUIRE X;
     apk_url_local_file := apk_url_local_file X;
     apk_istream_from_url := apk_istream_from_url X;
     apk_istream_splice := apk_istream_splice X;
     apk_pkg_version_compare := apk_pkg_version_compare X;
     apk_db_open := apk_db_open X;
     apk_state_lock_dependency := apk_state_lock_dependency X;
     creat_errno := creat_errno X;
     link_errno := link_errno X;
     unlink_errno := fun _ => 13;
     strerror := strerror X;
     stack_outfile := stack_outfile X;
     stack_real_infile := stack_real_infile X;
     stack_past_real_infile := stack_past_real_infile X |}.

(** A closure of three packages, the second carried by no repository. *)
Definition recursive : fetch_ctx := {| flags := FETCH_RECURSIVE; outdir := None |}.
Definition liba : apk_package :=
  {| pkg_name := "liba"; pkg_version := "1.0"; pkg_size := 12; pkg_repos := 1 |}.
Definition libb : apk_package :=
  {| pkg_name := "libb"; pkg_version := "1.0"; pkg_size := 12; pkg_repos := 0 |}.
Definition libc : apk_package :=
  {| pkg_name := "libc"; pkg_version := "1.0"; pkg_size := 12; pkg_repos := 1 |}.
Definition closure : Z * list apk_change :=
  (0, [{| newpkg := liba |}; {| newpkg := libb |}; {| newpkg := libc |}]).

End Scenario.

(** ** More scenarios *)

Module Cases.

Import Scenario.

(** The host [X], except that [creat] is refused with [EACCES]. *)
Definition denying (X : extern) : extern :=
  {| APK_MAX_REPOS := APK_MAX_REPOS X; APK_SIMULATE := APK_SIMULATE X;
     apk_flags := apk_flags X; APK_VERSION_GREATER := APK_VERSION_GREATER X;
     APK_DEPMASK_REQUIRE := APK_DEPMASK_REQUIRE X;
     apk_url_local_file := apk_url_local_file X;
     apk_istream_from_url := apk_istream_from_url X;
     apk_istream_splice := apk_istream_splice X;
     apk_pkg_version_compare := apk_pkg_version_compare X;
     apk_db_open := apk_db_open X;
     apk_state_lock_dependency := apk_state_lock_dependency X;
     creat_errno := fun _ => 13;
     link_errno := link_errno X;
     unlink_errno := unlink_errno X;
     strerror := strerror X;
     stack_outfile := stack_outfile X;
     stack_real_infile := stack_real_infile X;
     stack_past_real_infile := stack_past_real_infile X |}.

Definition to_stdout : fetch_ctx := {| flags := FETCH_STDOUT; outdir := None |}.


(** Standard output was closed before the applet started. *)
Definition silenced : world :=
  {| w_fs := ∅; w_inodes := ∅;
     w_fds := {[ 0 := "/dev/tty"; 2 := "/dev/tty" ]};
     w_states := ∅; w_next_state := 0; w_trace := [] |}.

(** A closure whose packages can all be fetched. *)
Definition sound : Z * list apk_change :=
  (0, [{| newpkg := liba |}; {| newpkg := libc |}]).

(** A package that claims membership of slot 0 and of a slot beyond
    [APK_MAX_REPOS]. *)
Definition beyond : apk_package :=
  {| pkg_name := "hello"; pkg_version := "1.2"; pkg_size := 12;
     pkg_repos := Z.lor 1 (2 ^ 40) |}.

(** The value and the world [fetch_main] returned. *)
Definition returned (res : option (Z * world)) : Z * world :=
  match res with
  | Some rw => rw
  | None => (0, nothing)
  end.

(** The world a [flow] ended in. *)
Definition ended (f : flow) : world :=
  match flow_world f with
  | Some w => w
  | None => nothing
  end.

End Cases.


(** ** Properties of traces and of the host *)

Lemma since_refl w : since w w [].
Proof. unfold since. by rewrite app_nil_r. Qed.

Lemma since_inj w w' evs1 evs2 : since w w' evs1 -> since w w' evs2 -> evs1 = evs2.
Proof. unfold since. intros -> H. by apply app_inv_head in H. Qed.

Lemma since_trans w w1 w2 evs1 evs2 :
  since w w1 evs1 -> since w1 w2 evs2 -> since w w2 (evs1 ++ evs2).
Proof. unfold since. intros H1 ->. by rewrite H1, app_assoc. Qed.

Lemma since_emit e w : since w (emit e w) [e].
Proof. reflexivity. Qed.

Lemma since_cons w w' e evs : since (emit e w) w' evs -> since w w' (e :: evs).
Proof. intros H. exact (since_trans _ _ _ _ _ (since_emit e w) H). Qed.

Lemma trace_write_fd fd n w : w_trace (write_fd fd n w) = w_trace w.
Proof. unfold write_fd. by repeat case_match. Qed.

Lemma fds_write_fd fd n w : w_fds (write_fd fd n w) = w_fds w.
Proof. unfold write_fd. by repeat case_match. Qed.

Lemma fs_write_fd fd n w : w_fs (write_fd fd n w) = w_fs w.
Proof. unfold write_fd. by repeat case_match. Qed.

(** Writing through a descriptor opened on a file of [k] bytes. *)
Lemma inodes_write_fd fd n p i k w :
  w_fds w !! fd = Some p -> w_fs w !! p = Some (File i) ->
  w_inodes w !! i = Some k ->
  w_inodes (write_fd fd n w) = <[i := k + n]> (w_inodes w).
Proof. intros Hfd Hp Hi. unfold write_fd. by rewrite Hfd, Hp, Hi. Qed.


Lemma lowest_free_ge {A} (m : gmap Z A) fuel n : n <= lowest_free m fuel n.
Proof.
  revert n. induction fuel as [|fuel IH]; intros n; simpl; [lia|].
  destruct (m !! n); [|lia]. specialize (IH (n + 1)). lia.
Qed.

Lemma lowest_free_below {A} (m : gmap Z A) fuel n k :
  n <= k < lowest_free m fuel n -> is_Some (m !! k).
Proof.
  revert n. induction fuel as [|fuel IH]; intros n; simpl; [lia|].
  destruct (m !! n) eqn:E; [|lia]. intros H.
  destruct (decide (k = n)) as [->|]; [by rewrite E|]. apply (IH (n + 1)). lia.
Qed.

Lemma lowest_free_delete {A} (m : gmap Z A) fuel j n :
  j < n -> lowest_free (delete j m) fuel n = lowest_free m fuel n.
Proof.
  revert n. induction fuel as [|fuel IH]; intros n Hj; simpl; [done|].
  rewrite lookup_delete_ne by lia. destruct (m !! n); [|done]. apply IH. lia.
Qed.

Lemma lowest_free_free {A} fuel (m : gmap Z A) n :
  (size m <= fuel)%nat -> m !! lowest_free m fuel n = None.
Proof.
  revert m n. induction fuel as [|fuel IH]; intros m n Hsz; simpl.
  - assert (m = ∅) as -> by (apply map_size_empty_inv; lia). apply lookup_empty.
  - destruct (m !! n) eqn:E; [|done].
    pose proof (lowest_free_ge m fuel (n + 1)) as Hge.
    rewrite <- (lookup_delete_ne m n) by lia.
    rewrite <- (lowest_free_delete m fuel n (n + 1)) by lia.
    apply IH. rewrite map_size_delete_Some by (by rewrite E). lia.
Qed.

(** [unused m] is the lowest number from 0 on that [m] does not hold. *)
Lemma unused_spec {A} (m : gmap Z A) :
  0 <= unused m /\ m !! unused m = None /\
  forall k, 0 <= k < unused m -> is_Some (m !! k).
Proof.
  unfold unused. split; [apply lowest_free_ge|]. split.
  - by apply lowest_free_free.
  - intros k. apply lowest_free_below.
Qed.

Section Fetch_package_properties.

Variable X : extern.

Lemma link_inv a b w r w' :
  link X a b w = (r, w') ->
  since w w' [Sys_link a b r] /\
  (r = 0 /\ w_fs w !! b = None /\ (exists nd, w_fs w !! a = Some nd /\ w_fs w' = <[b := nd]> (w_fs w))
   \/ r = -1 /\ w_fs w' = w_fs w /\ w_fds w' = w_fds w).
Proof.
  unfold link. intros H.
  destruct (w_fs w !! a) as [nd|] eqn:Ha; [destruct (w_fs w !! b) eqn:Hb|];
    [| destruct (link_errno X a b =? 0) |]; simplify_eq; (split; [reflexivity|]);
    [right | left | right | right]; eauto 6.
Qed.

Lemma link_inodes a b w : w_inodes (snd (link X a b w)) = w_inodes w.
Proof. unfold link. by repeat case_match. Qed.

Lemma follow_plain fuel f p :
  (forall t, f !! p <> Some (Symlink t)) -> follow fuel f p = Some p.
Proof.
  intros H. destruct fuel; simpl; destruct (f !! p) as [[]|] eqn:E; try done;
    by destruct (H target).
Qed.

(** The path [follow] ends at holds no symbolic link. *)
Lemma follow_end fuel f path p t :
  follow fuel f path = Some p -> f !! p <> Some (Symlink t).
Proof.
  revert path. induction fuel as [|fuel IH]; intros path; simpl;
    destruct (f !! path) as [[i|t']|] eqn:E; intros H; simplify_eq;
    try congruence.
  by eapply IH.
Qed.

Lemma creat_inv path w fd errno w' :
  creat X path w = (fd, errno, w') ->
  since w w' [Sys_creat path fd] /\
  (fd = -1 /\ errno = creat_error X path w /\
   w_fs w' = w_fs w /\ w_inodes w' = w_inodes w /\ w_fds w' = w_fds w
   \/ 0 <= fd /\ fd = unused (w_fds w) /\
      exists p i, follow MAXSYMLINKS (w_fs w) path = Some p /\
        (w_fs w !! p = Some (File i) \/
         w_fs w !! p = None /\ w_inodes w !! i = None) /\
        w_fs w' = <[p := File i]> (w_fs w) /\
        w_inodes w' = <[i := 0]> (w_inodes w) /\
        w_fds w' = <[fd := p]> (w_fds w)).
Proof.
  unfold creat, creat_error. intros H.
  destruct (follow MAXSYMLINKS (w_fs w) path) as [p|] eqn:Hp;
    [destruct (creat_errno X path =? 0)|]; simplify_eq; (split; [reflexivity|]);
    [right | left | left]; eauto 6.
  split; [apply unused_spec|]. split; [done|]. exists p.
  destruct (w_fs w !! p) as [[i|t]|] eqn:E.
  - exists i. eauto 6.
  - by destruct (follow_end _ _ _ _ t Hp).
  - exists (unused (w_inodes w)). repeat split; try done.
    right. split; [done|]. apply unused_spec.
Qed.

Lemma unlink_inv path w r w' :
  unlink X path w = (r, w') ->
  since w w' [Sys_unlink path] /\
  w_inodes w' = w_inodes w /\ w_fds w' = w_fds w /\
  (forall q, q <> path -> w_fs w' !! q = w_fs w !! q) /\
  (unlink_errno X path = 0 -> w_fs w' !! path = None) /\
  (unlink_errno X path <> 0 -> w_fs w' = w_fs w).
Proof.
  unfold unlink. intros H.
  destruct (w_fs w !! path) as [nd|] eqn:E;
    [destruct (Z.eqb_spec (unlink_errno X path) 0) as [H0|H0]|]; simplify_eq;
    (split; [reflexivity|]); simpl; repeat split; try done.
  - intros q Hq. by rewrite lookup_delete_ne.
  - intros _. apply lookup_delete_eq.
Qed.

Lemma fetch_stream_inv fctx db pkg i ist fd w r w' :
  fetch_stream X fctx db pkg i ist fd w = (r, w') ->
  exists r0 cl, Forall closing cl /\
    (r0 = pkg_size pkg /\ r = 0 /\
     since w w' (Stream_splice ist fd (pkg_size pkg) r0 :: Stream_close ist :: cl) /\
     w_fs w' = w_fs w /\
     w_inodes w' = w_inodes (write_fd fd (Z.max 0 r0) w)
     \/
     r0 <> pkg_size pkg /\ r = -1 /\
     since w w' (Stream_splice ist fd (pkg_size pkg) r0 :: Stream_close ist :: cl ++
                 [Error (unable_to_download (infile db pkg i));
                  Sys_unlink (outfile X fctx pkg)]) /\
     (unlink_errno X (outfile X fctx pkg) = 0 ->
      w_fs w' !! outfile X fctx pkg = None)).
Proof.
  unfold fetch_stream, istream_splice. intros H.
  set (r0 := apk_istream_splice X ist fd (pkg_size pkg)) in *.
  exists r0, (if fd =? STDOUT_FILENO then [] else [Sys_close fd]).
  split; [destruct (fd =? STDOUT_FILENO); repeat constructor|].
  destruct (Z.eqb_spec r0 (pkg_size pkg)) as [Hr|Hr]; simpl in H.
  - simplify_eq. left. split; [done|]. split; [done|].
    split; [|split; destruct (fd =? STDOUT_FILENO); simpl; by rewrite ?fs_write_fd].
    unfold since. destruct (fd =? STDOUT_FILENO); simpl;
      rewrite trace_write_fd, <- ?app_assoc; reflexivity.
  - destruct (unlink X _ _) as [u w2] eqn:Hu. simplify_eq.
    apply unlink_inv in Hu as (Hs & _ & _ & _ & Hgone & _).
    right. split; [done|]. split; [done|]. split; [|done].
    unfold since in *. rewrite Hs. destruct (fd =? STDOUT_FILENO); simpl;
      rewrite trace_write_fd, <- ?app_assoc; simpl; rewrite <- ?app_assoc; reflexivity.
Qed.

Lemma fetch_to_ending fctx db pkg w w1 pre fd r w' :
  (find_repo X pkg < APK_MAX_REPOS X)%nat ->
  since w w1 (Message (downloading pkg) :: pre) ->
  Forall preparing pre ->
  (has_flag (flags fctx) FETCH_STDOUT = false ->
   (forall t, w_fs w !! outfile X fctx pkg <> Some (Symlink t)) ->
   w_fds w1 !! fd = Some (outfile X fctx pkg) /\
   exists i, w_fs w1 !! outfile X fctx pkg = Some (File i) /\
             w_inodes w1 !! i = Some 0) ->
  fetch_to X fctx db pkg (find_repo X pkg) fd w1 = (r, w') ->
  exists evs, since w w' evs /\ ending X fctx db pkg w r w' evs.
Proof.
  intros Hi Hpre Hprep Hdest. unfold fetch_to, istream_from_url.
  destruct (apk_istream_from_url X _) as [ist|]; intros H.
  - apply fetch_stream_inv in H
      as (r0 & cl & Hcl & [(-> & -> & Hs & Hfs & Hino)|(Hr & -> & Hs & Hfs)]).
    + eexists. split.
      * eapply since_trans; [exact Hpre|]. apply since_cons, Hs.
      * simpl. apply Complete; try done.
        intros Hout Hsym Hsize. destruct (Hdest Hout Hsym) as (Hfd & i & Hf & Hlen).
        unfold lstat. rewrite Hfs. simpl. rewrite Hf, Hino.
        rewrite (inodes_write_fd _ _ (outfile X fctx pkg) i 0) by done.
        rewrite lookup_insert_eq. f_equal. lia.
    + eexists. split.
      * eapply since_trans; [exact Hpre|]. apply since_cons, Hs.
      * simpl. by apply Short.
  - simplify_eq. eexists. split.
    + eapply since_trans; [exact Hpre|].
      apply since_cons, since_emit.
    + simpl. by apply Open_failed.
Qed.


Lemma real_infile_emit path e w : real_infile X path (emit e w) = real_infile X path w.
Proof. reflexivity. Qed.

Lemma fetch_create_ending fctx db pkg w w1 pre r w' :
  (find_repo X pkg < APK_MAX_REPOS X)%nat ->
  has_flag (flags fctx) FETCH_STDOUT = false ->
  since w w1 (Message (downloading pkg) :: pre) ->
  Forall preparing pre ->
  w_fs w1 = w_fs w ->
  fetch_create X fctx db pkg (find_repo X pkg) w1 = (r, w') ->
  exists evs, since w w' evs /\ ending X fctx db pkg w r w' evs.
Proof.
  intros Hi Hout Hpre Hprep Hfs. unfold fetch_create.
  destruct (creat X (outfile X fctx pkg) w1) as [[fd errno] w2] eqn:Hc.
  apply creat_inv in Hc
    as [Hs [(-> & _ & Hfs2 & _)|(Hfd & _ & p & i & Hp & _ & Hfs2 & Hino2 & Hfds2)]].
  - simpl. intros [= <- <-]. eexists. split.
    + eapply since_trans; [exact Hpre|].
      eapply since_trans; [exact Hs|]. apply since_emit.
    + simpl. apply Creat_failed; [done|done|]. simpl. congruence.
  - destruct (Z.ltb_spec fd 0) as [|_]; [lia|]. intros H.
    eapply (fetch_to_ending _ _ _ w w2 (pre ++ [Sys_creat (outfile X fctx pkg) fd])) in H.
    + exact H.
    + done.
    + pose proof (since_trans _ _ _ _ _ Hpre Hs) as Hs'. exact Hs'.
    + apply Forall_app. split; [done|]. by repeat constructor.
    + intros _ Hsym. rewrite Hfs in Hp. rewrite follow_plain in Hp by done.
      simplify_eq. rewrite Hfs2, Hino2, Hfds2. rewrite !lookup_insert_eq.
      split; [done|]. exists i. by rewrite lookup_insert_eq.
Qed.

(** Every call of [fetch_package] ends in one of the eight ways. *)
Lemma fetch_package_ending fctx db pkg w r w' :
  fetch_package X fctx db pkg w = (r, w') ->
  exists evs, since w w' evs /\ ending X fctx db pkg w r w' evs.
Proof.
  unfold fetch_package.
  destruct (already_fetched X fctx pkg w) eqn:Hskip.
  { intros [= <- <-]. exists []. split; [apply since_refl | by apply Skipped]. }
  destruct (Nat.leb_spec (APK_MAX_REPOS X) (find_repo X pkg)) as [Hi|Hi].
  { intros [= <- <-]. eexists. split; [apply since_cons, since_emit|].
    by apply No_repository. }
  destruct (has_flag (apk_flags X) (APK_SIMULATE X)) eqn:Hsim.
  { intros [= <- <-]. eexists. split; [apply since_emit|]. by apply Simulated. }
  destruct (has_flag (flags fctx) FETCH_STDOUT) eqn:Hout.
  { apply fetch_to_ending with (pre := []); [done|apply since_emit|apply Forall_nil_2|intros; congruence]. }
  destruct (has_flag (flags fctx) FETCH_LINK &&
            apk_url_local_file X (infile db pkg (find_repo X pkg)))%bool eqn:Hlink.
  - apply andb_prop in Hlink as [Hl Hloc].
    destruct (link X _ _ _) as [r1 w1] eqn:Hlk.
    apply link_inv in Hlk as [Hs [(-> & _)|(-> & Hfs & _)]]; simpl.
    + intros [= <- <-]. eexists. split; [apply since_cons, Hs|].
      change (apk_message (downloading pkg) w) with (emit (Message (downloading pkg)) w).
      rewrite real_infile_emit. by apply Linked.
    + eapply fetch_create_ending; [done|done|apply since_cons, Hs| |done].
      by repeat constructor.
  - eapply fetch_create_ending; [done|done|apply since_emit|apply Forall_nil_2|done].
Qed.

End Fetch_package_properties.

(** ** Claims about fetch_package *)

Lemma preparing_in pre e : Forall preparing pre -> e ∈ pre -> preparing e.
Proof. rewrite Forall_forall. auto. Qed.

Lemma closing_in cl e : Forall closing cl -> e ∈ cl -> closing e.
Proof. rewrite Forall_forall. auto. Qed.

(** Splits a membership in a trace into its cases and discards those that
    name an event of the wrong kind. *)
Ltac in_trace H :=
  repeat (rewrite ?elem_of_cons, ?elem_of_app, ?elem_of_nil in H);
  repeat match type of H with
         | _ \/ _ => destruct H as [H|H]
         end;
  try discriminate H; try contradiction;
  try (match goal with
       | Hp : Forall preparing ?l, Hi : _ ∈ ?l |- _ =>
           apply (preparing_in _ _ Hp) in Hi; simpl in Hi
       | Hc : Forall closing ?l, Hi : _ ∈ ?l |- _ =>
           apply (closing_in _ _ Hc) in Hi; simpl in Hi
       end;
       first [contradiction | discriminate]).

Ltac trace_mem :=
  repeat (rewrite ?elem_of_cons, ?elem_of_app); auto 12.

Section Fetch_package_claims.

Variable X : extern.

Lemma ending_splice fctx db pkg w r w' evs ist fd sz n :
  ending X fctx db pkg w r w' evs ->
  Stream_splice ist fd sz n ∈ evs ->
  Stream_open (infile db pkg (find_repo X pkg)) true ∈ evs /\
  (n = pkg_size pkg /\ r = 0
   \/ n <> pkg_size pkg /\ r = -1 /\
      Error (unable_to_download (infile db pkg (find_repo X pkg))) ∈ evs /\
      (exists before, evs = before ++ [Sys_unlink (outfile X fctx pkg)]) /\
      (unlink_errno X (outfile X fctx pkg) = 0 ->
       w_fs w' !! outfile X fctx pkg = None)).
Proof.
  intros Hend Hin. destruct Hend; in_trace Hin.
  - simplify_eq. split; [trace_mem|]. right.
    split; [done|]. split; [done|]. split; [trace_mem|]. split; [|done].
    eexists (Message _ :: pre ++ Stream_open _ _ :: Stream_splice _ _ _ _ ::
             Stream_close _ :: cl ++ [Error _]).
    simpl. rewrite <- !app_assoc. simpl. by rewrite <- app_assoc.
  - simplify_eq. split; [trace_mem|]. by left.
Qed.

(** C1, as amended.  A fetch to a file destination in which the stream
    was opened and the splice returned a count other than the declared size
    ends with -1, after reporting "Unable to download" for the source
    locator; the last thing it does is to call [unlink] on the destination
    path, whose result it does not look at.  So no entry remains at the
    destination path provided the host lets that [unlink] succeed. *)
Theorem fetch_package_short_transfer fctx db pkg w r w' evs ist fd sz n :
  has_flag (flags fctx) FETCH_STDOUT = false ->
  fetch_package X fctx db pkg w = (r, w') ->
  since w w' evs ->
  Stream_splice ist fd sz n ∈ evs ->
  n <> pkg_size pkg ->
  r = -1 /\
  Stream_open (infile db pkg (find_repo X pkg)) true ∈ evs /\
  Error (unable_to_download (infile db pkg (find_repo X pkg))) ∈ evs /\
  (exists before, evs = before ++ [Sys_unlink (outfile X fctx pkg)]) /\
  (unlink_errno X (outfile X fctx pkg) = 0 ->
   lstat (outfile X fctx pkg) w' = None).
Proof.
  intros _ Hrun Hs Hin Hn.
  apply fetch_package_ending in Hrun as (evs' & Hs' & Hend).
  rewrite (since_inj _ _ _ _ Hs Hs') in Hin |- *.
  destruct (ending_splice _ _ _ _ _ _ _ _ _ _ _ Hend Hin)
    as (Hopen & [(? & _)|(_ & -> & Herr & Hlast & Hfs)]); [done|].
  repeat split; try done. intros Hok. unfold lstat. by rewrite (Hfs Hok).
Qed.

(** A text that fits the buffer is kept whole. *)
Lemma snprintf_fits n text :
  (String.length text < n)%nat -> snprintf n text = text.
Proof.
  unfold snprintf. intros H.
  assert (Hle : (String.length text <= n - 1)%nat) by lia. clear H.
  revert Hle. generalize (n - 1)%nat as m.
  induction text as [|c text IH]; intros m Hle; [by destruct m|].
  destruct m as [|m]; simpl in *; [lia|]. f_equal. apply IH. lia.
Qed.

(** Without stdout mode, an output path that fits the buffer is
    "<outdir>/<name>-<version>.apk" itself. *)
Lemma outfile_fits fctx pkg :
  has_flag (flags fctx) FETCH_STDOUT = false ->
  (String.length
     (apk_path (match outdir fctx with Some d => d | None => "." end) pkg) < 256)%nat ->
  outfile X fctx pkg =
    apk_path (match outdir fctx with Some d => d | None => "." end) pkg.
Proof. intros Hout Hlen. unfold outfile. rewrite Hout. by apply snprintf_fits. Qed.

Lemma has_flag_zero mask : has_flag 0 mask = false.
Proof. reflexivity. Qed.

Lemma repo_scan_spec rmask left i :
  (i <= repo_scan rmask left i <= i + left)%nat /\
  (forall j, (i <= j < repo_scan rmask left i)%nat -> has_flag rmask (BIT j) = false) /\
  ((repo_scan rmask left i < i + left)%nat ->
   has_flag rmask (BIT (repo_scan rmask left i)) = true).
Proof.
  revert i. induction left as [|left IH]; intros i; simpl.
  - repeat split; intros; lia.
  - destruct (has_flag rmask (BIT i)) eqn:Hbit.
    + repeat split; intros; try lia. done.
    + destruct (IH (S i)) as (Hb & Hlow & Hhit). repeat split; try lia.
      * intros j Hj. destruct (decide (j = i)) as [->|]; [done|]. apply Hlow. lia.
      * intros ?. apply Hhit. lia.
Qed.

(** The repository locator returns the least slot that is a member. *)
Lemma find_repo_least pkg :
  (find_repo X pkg <= APK_MAX_REPOS X)%nat /\
  (forall j, (j < find_repo X pkg)%nat -> has_flag (pkg_repos pkg) (BIT j) = false) /\
  ((find_repo X pkg < APK_MAX_REPOS X)%nat ->
   has_flag (pkg_repos pkg) (BIT (find_repo X pkg)) = true).
Proof.
  unfold find_repo.
  destruct (repo_scan_spec (pkg_repos pkg) (APK_MAX_REPOS X) 0) as (Hb & Hlow & Hhit).
  repeat split; [lia| |]; intros; [apply Hlow|apply Hhit]; lia.
Qed.

Lemma find_repo_member pkg j :
  (j < APK_MAX_REPOS X)%nat -> has_flag (pkg_repos pkg) (BIT j) = true ->
  (find_repo X pkg < APK_MAX_REPOS X)%nat.
Proof.
  intros Hj Hbit. destruct (find_repo_least pkg) as (Hb & Hlow & _).
  destruct (decide (find_repo X pkg < APK_MAX_REPOS X)%nat) as [|Hge]; [done|].
  rewrite Hlow in Hbit by lia. done.
Qed.

Lemma find_repo_empty pkg :
  (forall j, (j < APK_MAX_REPOS X)%nat -> has_flag (pkg_repos pkg) (BIT j) = false) ->
  find_repo X pkg = APK_MAX_REPOS X.
Proof.
  intros Hempty. destruct (find_repo_least pkg) as (Hb & _ & Hhit).
  destruct (decide (find_repo X pkg < APK_MAX_REPOS X)%nat) as [Hlt|]; [|lia].
  rewrite Hempty in Hhit by done. by discriminate Hhit.
Qed.

Lemma already_fetched_lstat fctx pkg w :
  has_flag (flags fctx) FETCH_STDOUT = false ->
  lstat (outfile X fctx pkg) w = Some (pkg_size pkg) ->
  already_fetched X fctx pkg w = true.
Proof.
  intros Hout Hst. unfold already_fetched. rewrite Hout, Hst. simpl. apply Z.eqb_refl.
Qed.

(** The skip-if-present return: nothing at all happens. *)
Lemma fetch_package_skip fctx db pkg w :
  already_fetched X fctx pkg w = true -> fetch_package X fctx db pkg w = (0, w).
Proof. intros H. unfold fetch_package. by rewrite H. Qed.

(** C3, as amended.  With stdout mode off, if [lstat] finds at the output path
    (the first 255 bytes of "<outdir>/<name>-<version>.apk") an entry whose
    size is the declared size, [fetch_package] returns 0 and leaves the
    world as it was: nothing is reported, no stream is opened, nothing is
    copied, no entry changes.  Hence so does a second call right after a
    call that returned 0 having spliced the artifact into a destination
    that was not a symbolic link. *)
Theorem fetch_package_skips_present fctx db pkg w :
  has_flag (flags fctx) FETCH_STDOUT = false ->
  lstat (outfile X fctx pkg) w = Some (pkg_size pkg) \/
  (exists w0 evs ist fd sz n,
      fetch_package X fctx db pkg w0 = (0, w) /\ since w0 w evs /\
      Stream_splice ist fd sz n ∈ evs /\
      (forall t, w_fs w0 !! outfile X fctx pkg <> Some (Symlink t)) /\
      0 <= pkg_size pkg) ->
  fetch_package X fctx db pkg w = (0, w).
Proof.
  intros Hout Hcase. apply fetch_package_skip, already_fetched_lstat; [done|].
  destruct Hcase as [Hst|(w0 & evs & ist & fd & sz & n & Hrun & Hs & Hin & Hsym & Hsz)];
    [done|].
  apply fetch_package_ending in Hrun as (evs' & Hs' & Hend).
  rewrite (since_inj _ _ _ _ Hs Hs') in Hin.
  inversion Hend; subst; in_trace Hin.
  match goal with H : _ -> _ -> _ -> lstat _ w = _ |- _ => by apply H end.
Qed.

(** C10.  The skip-if-present check comes before the repository lookup:
    for a package that is a member of no repository slot, with stdout mode
    off and an entry of the declared size at the output path,
    [fetch_package] returns 0 and leaves the world as it was, so neither
    the progress message nor the "not present in any repository" error is
    emitted. *)
Theorem fetch_package_skip_precedes_lookup fctx db pkg w :
  has_flag (flags fctx) FETCH_STDOUT = false ->
  lstat (outfile X fctx pkg) w = Some (pkg_size pkg) ->
  (forall j, (j < APK_MAX_REPOS X)%nat -> has_flag (pkg_repos pkg) (BIT j) = false) ->
  find_repo X pkg = APK_MAX_REPOS X /\
  fetch_package X fctx db pkg w = (0, w).
Proof.
  intros Hout Hst Hempty. split; [by apply find_repo_empty|].
  by apply fetch_package_skip, already_fetched_lstat.
Qed.

(** C7.  With [APK_SIMULATE] set in [apk_flags], for a package that is a
    member of some repository slot, [fetch_package] returns 0 whether or not
    the skip-if-present check applies; the entries, the files and the
    descriptors are those it found, and at most the progress message is emitted: no file is
    created and no stream is opened. *)
Theorem fetch_package_simulate fctx db pkg w :
  has_flag (apk_flags X) (APK_SIMULATE X) = true ->
  (exists j, (j < APK_MAX_REPOS X)%nat /\ has_flag (pkg_repos pkg) (BIT j) = true) ->
  exists w',
    fetch_package X fctx db pkg w = (0, w') /\
    w_fs w' = w_fs w /\ w_inodes w' = w_inodes w /\ w_fds w' = w_fds w /\
    (since w w' [] \/ since w w' [Message (downloading pkg)]).
Proof.
  intros Hsim (j & Hj & Hbit). pose proof (find_repo_member pkg j Hj Hbit) as Hi.
  unfold fetch_package. destruct (already_fetched X fctx pkg w).
  - exists w. repeat split. left. apply since_refl.
  - destruct (Nat.leb_spec (APK_MAX_REPOS X) (find_repo X pkg)); [lia|].
    rewrite Hsim. eexists. repeat split. right. apply since_emit.
Qed.

(** C8.  If the hard link was created ([link] returned 0), then link mode
    is on, the source locator is a local file, the link goes from the
    path read through [readlink] to the output path, [fetch_package]
    returns 0 at once (the link is its last event), and none of creating
    the destination, opening a stream or splicing happens. *)
Theorem fetch_package_link_shortcut fctx db pkg w r w' evs oldpath newpath :
  fetch_package X fctx db pkg w = (r, w') ->
  since w w' evs ->
  Sys_link oldpath newpath 0 ∈ evs ->
  r = 0 /\
  has_flag (flags fctx) FETCH_LINK = true /\
  apk_url_local_file X (infile db pkg (find_repo X pkg)) = true /\
  oldpath = real_infile X (infile db pkg (find_repo X pkg)) w /\
  newpath = outfile X fctx pkg /\
  evs = [Message (downloading pkg); Sys_link oldpath newpath 0] /\
  (forall e, e ∈ evs -> streaming e = false).
Proof.
  intros Hrun Hs Hin.
  apply fetch_package_ending in Hrun as (evs' & Hs' & Hend).
  rewrite (since_inj _ _ _ _ Hs Hs') in Hin |- *. clear Hs Hs'.
  destruct Hend; in_trace Hin. simplify_eq.
  repeat split; try done. intros e He. by in_trace He; subst.
Qed.

(** C4, as amended.  The repository locator returns the least slot below
    [APK_MAX_REPOS] whose bit is set in the membership mask, and every
    stream is opened at that slot's url.  If no slot is a member and the
    skip-if-present check has not already returned, [fetch_package] returns
    -1 after the progress message and the error naming the package, and
    does nothing else: no stream is opened. *)
Theorem fetch_package_repository fctx db pkg :
  ((find_repo X pkg <= APK_MAX_REPOS X)%nat /\
   (forall j, (j < find_repo X pkg)%nat -> has_flag (pkg_repos pkg) (BIT j) = false) /\
   ((find_repo X pkg < APK_MAX_REPOS X)%nat ->
    has_flag (pkg_repos pkg) (BIT (find_repo X pkg)) = true)) /\
  (forall w r w' evs locator opened,
      fetch_package X fctx db pkg w = (r, w') -> since w w' evs ->
      Stream_open locator opened ∈ evs ->
      (find_repo X pkg < APK_MAX_REPOS X)%nat /\
      locator = snprintf 256 (apk_path (url (db_repos db (find_repo X pkg))) pkg)) /\
  (forall w,
      (forall j, (j < APK_MAX_REPOS X)%nat -> has_flag (pkg_repos pkg) (BIT j) = false) ->
      already_fetched X fctx pkg w = false ->
      fetch_package X fctx db pkg w =
        (-1, apk_error (not_present pkg) (apk_message (downloading pkg) w))).
Proof.
  split; [apply find_repo_least|]. split.
  - intros w r w' evs locator opened Hrun Hs Hin.
    apply fetch_package_ending in Hrun as (evs' & Hs' & Hend).
    rewrite (since_inj _ _ _ _ Hs Hs') in Hin. clear Hs Hs'.
    destruct Hend; in_trace Hin; by simplify_eq.
  - intros w Hempty Hskip. unfold fetch_package. rewrite Hskip.
    rewrite (find_repo_empty pkg Hempty). by rewrite Nat.leb_refl.
Qed.

End Fetch_package_claims.

(** ** Claims about fetch_main *)

Lemma calls_app evs1 evs2 : calls (evs1 ++ evs2) = calls evs1 ++ calls evs2.
Proof.
  induction evs1 as [|e evs1 IH]; [done|]. destruct e; simpl; by rewrite ?IH.
Qed.

Lemma calls_preparing pre : Forall preparing pre -> calls pre = [].
Proof. induction 1 as [|e pre He _ IH]; [done|]. by destruct e. Qed.

Lemma calls_closing cl : Forall closing cl -> calls cl = [].
Proof. induction 1 as [|e cl He _ IH]; [done|]. by destruct e. Qed.

Section Fetch_main_claims.

Variable X : extern.

Local Abbreviation greater := (greater X).
Local Abbreviation fetched_all := (fetched_all X).

Lemma fetch_package_calls fctx db pkg w r w' :
  fetch_package X fctx db pkg w = (r, w') ->
  exists evs, since w w' evs /\ calls evs = [].
Proof.
  intros Hrun. apply fetch_package_ending in Hrun as (evs & Hs & Hend).
  exists evs. split; [done|].
  destruct Hend; simpl; rewrite ?calls_app; simpl; rewrite ?calls_app;
    rewrite ?calls_preparing, ?calls_closing by done; done.
Qed.

Lemma call_fetch_package_calls fctx db pkg w r w' :
  call_fetch_package X fctx db pkg w = (r, w') ->
  exists evs, since w w' evs /\ calls evs = [pkg].
Proof.
  unfold call_fetch_package. intros Hrun.
  apply fetch_package_calls in Hrun as (evs & Hs & Hc).
  exists (Call_fetch_package pkg :: evs). split; [by apply since_cons|].
  simpl. by rewrite Hc.
Qed.

Lemma fetched_all_calls fctx db pkgs w w' :
  fetched_all fctx db pkgs w w' ->
  exists evs, since w w' evs /\ calls evs = pkgs.
Proof.
  induction 1 as [w|pkg pkgs w w1 w2 Hcall _ (evs2 & Hs2 & Hc2)].
  - exists []. split; [apply since_refl|done].
  - apply call_fetch_package_calls in Hcall as (evs1 & Hs1 & Hc1).
    exists (evs1 ++ evs2). split; [by eapply since_trans|].
    by rewrite calls_app, Hc1, Hc2.
Qed.

(** The loop over the change list: it runs through the list in order, and
    stops at the first package whose fetch does not return 0. *)
Lemma fetch_changes_run fctx db changes r0 w :
  (exists w', fetched_all fctx db (map newpkg changes) w w' /\
     fetch_changes X fctx db changes r0 w =
       Continue (if changes is [] then r0 else 0) w')
  \/
  (exists before c after w1 r w',
     changes = before ++ c :: after /\
     fetched_all fctx db (map newpkg before) w w1 /\
     call_fetch_package X fctx db (newpkg c) w1 = (r, w') /\ r <> 0 /\
     fetch_changes X fctx db changes r0 w = Leave r w').
Proof.
  revert r0 w. induction changes as [|c changes IH]; intros r0 w; simpl.
  - left. exists w. split; [constructor|done].
  - destruct (call_fetch_package X fctx db (newpkg c) w) as [r w1] eqn:Hcall.
    destruct (Z.eqb_spec r 0) as [->|Hr]; simpl.
    + destruct (IH 0 w1) as [(w' & Hall & Heq)|(before & c' & after & w2 & r & w' & -> & Hall & Hc & Hr & Heq)].
      * left. exists w'. split; [by econstructor|].
        rewrite Heq. by destruct changes.
      * right. exists (c :: before), c', after, w2, r, w'.
        repeat split; try done. simpl. by econstructor.
    + right. exists [], c, changes, w, r, w1. repeat split; try done. constructor.
Qed.

Lemma fetch_args_app fctx db before rest r0 w r1 w1 :
  fetch_args X fctx db before r0 w = Continue r1 w1 ->
  fetch_args X fctx db (before ++ rest) r0 w = fetch_args X fctx db rest r1 w1.
Proof.
  revert r0 w. induction before as [|a before IH]; intros r0 w; simpl.
  - by intros [= -> ->].
  - destruct (fetch_arg X fctx db a w); try done. apply IH.
Qed.


(** C6.  In recursive mode, once the engine has locked the closure
    [changes] for an argument, [fetch_package] is called on its packages in
    the order of the list.  Either every call returns 0, all packages were
    tried in order and the loop over the arguments goes on; or some call
    returns [r <> 0], the calls made are exactly those up to and including
    that package, in order, and [fetch_main] returns [r] without looking at
    the rest of the list or at the remaining arguments. *)
Theorem recursive_fetch_in_order fctx db before arg rest w r1 w1 changes :
  has_flag (flags fctx) FETCH_RECURSIVE = true ->
  apk_db_open X = (0, db) ->
  fetch_args X fctx db before 0 (emit (Db_open 0) w) = Continue r1 w1 ->
  apk_state_lock_dependency X db
    {| dep_name := apk_db_get_name db arg;
       result_mask := APK_DEPMASK_REQUIRE X |} = (0, changes) ->
  let state := fst (apk_state_new db w1) in
  let w2 := snd (apk_state_new db w1) in
  (exists w3 evs,
      fetched_all fctx db (map newpkg changes) w2 w3 /\
      since w2 w3 evs /\ calls evs = map newpkg changes /\
      fetch_arg X fctx db arg w1 =
        Continue 0 (apk_state_unref
                      {| state_id := state_id state; change_list := changes |} w3))
  \/
  (exists done c after w3 r w' evs,
      changes = done ++ c :: after /\
      fetched_all fctx db (map newpkg done) w2 w3 /\
      call_fetch_package X fctx db (newpkg c) w3 = (r, w') /\ r <> 0 /\
      since w2 w' evs /\ calls evs = map newpkg (done ++ [c]) /\
      fetch_arg X fctx db arg w1 = Leave r w' /\
      fetch_main X fctx (before ++ arg :: rest) w = Some (r, apk_db_close w')).
Proof.
  intros Hrec Hopen Hbefore Hlock state w2.
  assert (Harg : fetch_arg X fctx db arg w1 =
            match fetch_changes X fctx db changes 0 w2 with
            | Continue r w =>
                Continue r (apk_state_unref
                  {| state_id := state_id state; change_list := changes |} w)
            | other => other
            end).
  { unfold fetch_arg. rewrite Hrec. simpl. by rewrite Hlock. }
  destruct (fetch_changes_run fctx db changes 0 w2)
    as [(w3 & Hall & Heq)|(done & c & after & w3 & r & w' & -> & Hall & Hc & Hr & Heq)].
  - left. destruct (fetched_all_calls _ _ _ _ _ Hall) as (evs & Hs & Hcalls).
    exists w3, evs. repeat split; try done.
    rewrite Harg, Heq. by destruct changes.
  - right. destruct (fetched_all_calls _ _ _ _ _ Hall) as (evs1 & Hs1 & Hc1).
    destruct (call_fetch_package_calls _ _ _ _ _ _ Hc) as (evs2 & Hs2 & Hc2).
    exists done, c, after, w3, r, w', (evs1 ++ evs2).
    rewrite Heq in Harg.
    repeat split; try done.
    + by eapply since_trans.
    + by rewrite calls_app, Hc1, Hc2, map_app.
    + unfold fetch_main. rewrite Hopen. simpl.
      rewrite (fetch_args_app _ _ _ _ _ _ _ _ Hbefore). simpl. by rewrite Harg.
Qed.

Lemma select_pkg_invariant (before rest : list apk_package) i cur :
  (forall a, ~ greater a a) ->
  (forall a b c, greater a b -> greater b c -> greater a c) ->
  (forall a b c, greater a c -> greater a b \/ greater b c) ->
  before !! i = Some cur ->
  (forall q, q ∈ before -> ~ greater q cur) ->
  (forall j q, (j < i)%nat -> before !! j = Some q -> greater cur q) ->
  exists i' pkg,
    (before ++ rest) !! i' = Some pkg /\
    select_pkg X rest (Some cur) = Some pkg /\
    (forall q, q ∈ before ++ rest -> ~ greater q pkg) /\
    (forall j q, (j < i')%nat -> (before ++ rest) !! j = Some q -> greater pkg q).
Proof.
  intros Hirr Htrans Hneg. revert before i cur.
  induction rest as [|item rest IH]; intros before i cur Hi Hmax Hfirst.
  - exists i, cur. rewrite app_nil_r. by repeat split.
  - simpl. rewrite (cons_middle item before rest), app_assoc.
    assert (Hlen : (i < length before)%nat) by by eapply lookup_lt_Some.
    destruct (Z.eqb_spec (apk_pkg_version_compare X item cur) (APK_VERSION_GREATER X))
      as [Hgt|Hle].
    + apply (IH (before ++ [item]) (length before) item).
      * by rewrite lookup_app_r, Nat.sub_diag by lia.
      * intros q [Hq|Hq%list_elem_of_singleton]%elem_of_app; [|subst; apply Hirr].
        intros Hqi. apply (Hmax q Hq). by apply (Htrans q item cur).
      * intros j q Hj Hq. rewrite lookup_app_l in Hq by done.
        destruct (Hneg item q cur Hgt) as [|Hqc]; [done|].
        destruct (Hmax q); [by eapply list_elem_of_lookup_2|done].
    + apply (IH (before ++ [item]) i cur).
      * by rewrite lookup_app_l.
      * intros q [Hq|Hq%list_elem_of_singleton]%elem_of_app; [by apply Hmax|by subst].
      * intros j q Hj Hq. rewrite lookup_app_l in Hq by lia. by eapply Hfirst.
Qed.

(** C5.  In non-recursive mode, for a name with a non-empty array of
    variants, where "greater" is a strict weak order (irreflexive,
    transitive, and incomparability is transitive), [fetch_package] is
    called on the variant that none compares greater than, and that
    compares greater than every variant before it in the array: a later
    candidate replaces the selection only when it compares greater, so of
    equals the earliest is kept. *)
Theorem fetch_arg_selects_greatest fctx db arg items w :
  has_flag (flags fctx) FETCH_RECURSIVE = false ->
  name_pkgs (apk_db_get_name db arg) = Some items ->
  items <> [] ->
  (forall a, ~ greater a a) ->
  (forall a b c, greater a b -> greater b c -> greater a c) ->
  (forall a b c, greater a c -> greater a b \/ greater b c) ->
  exists i pkg,
    items !! i = Some pkg /\
    (forall q, q ∈ items -> ~ greater q pkg) /\
    (forall j q, (j < i)%nat -> items !! j = Some q -> greater pkg q) /\
    select_pkg X items None = Some pkg /\
    fetch_arg X fctx db arg w =
      (let '(r, w') := call_fetch_package X fctx db pkg w in
       if negb (r =? 0) then Leave r w' else Continue r w').
Proof.
  intros Hrec Hpkgs Hne Hirr Htrans Hneg.
  destruct items as [|first items]; [done|].
  destruct (select_pkg_invariant [first] items 0 first Hirr Htrans Hneg)
    as (i & pkg & Hi & Hsel & Hmax & Hfirst).
  - done.
  - intros q ->%list_elem_of_singleton. apply Hirr.
  - intros j q Hj. lia.
  - exists i, pkg. repeat split; try done.
    unfold fetch_arg. rewrite Hrec. cbn [dep_name]. rewrite Hpkgs.
    simpl in Hsel |- *. by rewrite Hsel.
Qed.

End Fetch_main_claims.

(** ** The claims on concrete runs *)

Import Scenario.

(** C1 as stated fails: the destination holds 7 bytes of an earlier
    attempt in a directory that cannot be modified.  [creat] opens the
    file, the stream ends after 5 of the 12 bytes, [fetch_package] returns
    -1, and the [unlink] it calls is refused: the 5 bytes stay at the
    destination path. *)
Lemma fetch_package_short_transfer_counterexample :
  let X := read_only_directory (host 0 (Some 5) idle) in
  let run := fetch_package X into_cwd db pkg12 stale in
  has_flag (flags into_cwd) FETCH_STDOUT = false /\
  Stream_open (infile db pkg12 (find_repo X pkg12)) true ∈ w_trace (snd run) /\
  Stream_splice {| is_token := 0 |} 3 12 5 ∈ w_trace (snd run) /\
  5 <> pkg_size pkg12 /\
  fst run = -1 /\
  Sys_unlink (outfile X into_cwd pkg12) ∈ w_trace (snd run) /\
  lstat (outfile X into_cwd pkg12) (snd run) = Some 5.
Proof.
  intros X run. split; [reflexivity|].
  split; [apply list_elem_of_In; vm_compute; tauto|].
  split; [apply list_elem_of_In; vm_compute; tauto|].
  split; [vm_compute; discriminate|].
  split; [reflexivity|].
  split; [apply list_elem_of_In; vm_compute; tauto|reflexivity].
Qed.

(** C1, as amended, on a stream that ends after 5 of the 12 bytes, on a
    host that lets [unlink] succeed. *)
Lemma fetch_package_short_transfer_witness :
  let X := host 0 (Some 5) idle in
  let run := fetch_package X into_cwd db pkg12 nothing in
  fst run = -1 /\
  Stream_open (infile db pkg12 (find_repo X pkg12)) true ∈ w_trace (snd run) /\
  Error (unable_to_download (infile db pkg12 (find_repo X pkg12)))
    ∈ w_trace (snd run) /\
  (exists before,
     w_trace (snd run) = before ++ [Sys_unlink (outfile X into_cwd pkg12)]) /\
  lstat (outfile X into_cwd pkg12) (snd run) = None.
Proof.
  intros X run.
  destruct (fetch_package_short_transfer X into_cwd db pkg12 nothing
              (fst run) (snd run) (w_trace (snd run)) {| is_token := 0 |} 3 12 5)
    as (Hr & Hopen & Herr & Hlast & Hgone).
  - reflexivity.
  - apply surjective_pairing.
  - reflexivity.
  - apply list_elem_of_In. vm_compute. tauto.
  - vm_compute. discriminate.
  - split; [exact Hr|]. split; [exact Hopen|]. split; [exact Herr|].
    split; [exact Hlast|]. apply Hgone. reflexivity.
Defined.

(** C2.  The claim fails on the code: when the stream cannot be opened,
    [fetch_package] returns -1 right after the error message; the file
    [creat] has just made stays at the output path, empty, and its
    descriptor stays open.  (The path taken when the splice falls short
    does call [unlink].) *)
Theorem fetch_package_open_failure_leaves_file :
  let X := host 0 None idle in
  let run := fetch_package X into_cwd db pkg12 nothing in
  fst run = -1 /\
  w_trace (snd run) =
    [Message "Downloading hello-1.2";
     Sys_creat "./hello-1.2.apk" 3;
     Stream_open "http://mirror/hello-1.2.apk" false;
     Error "Unable to download 'http://mirror/hello-1.2.apk'"] /\
  outfile X into_cwd pkg12 = "./hello-1.2.apk" /\
  lstat "./hello-1.2.apk" (snd run) = Some 0 /\
  w_fds (snd run) !! 3 = Some "./hello-1.2.apk".
Proof. vm_compute. repeat split. Qed.

(** C3 as stated fails: the file in the local repository has 7 bytes, the
    package declares 12.  The first fetch links it to the output path and
    returns 0.  The second fetch finds 7 bytes there, not 12, and goes on
    to [creat] the output path and to open and splice the stream; as
    [creat] has emptied the file the stream reads, it ends with -1. *)
Lemma fetch_package_skips_present_counterexample :
  let X := host 0 (Some 0) idle in
  let first := fetch_package X linking db local12 cut_short in
  let second := fetch_package X linking db local12 (snd first) in
  has_flag (flags linking) FETCH_STDOUT = false /\
  fst first = 0 /\
  lstat (outfile X linking local12) (snd first) = Some 7 /\
  second <> (0, snd first) /\
  fst second = -1 /\
  Sys_creat (outfile X linking local12) 3 ∈ w_trace (snd second) /\
  Stream_open (infile db local12 (find_repo X local12)) true ∈ w_trace (snd second).
Proof.
  intros X first second. split; [reflexivity|]. split; [reflexivity|].
  split; [reflexivity|]. split; [|split; [reflexivity|] ].
  - intros H. apply (f_equal fst) in H. vm_compute in H. discriminate.
  - split; apply list_elem_of_In; vm_compute; tauto.
Qed.

(** C3, as amended, once with the file already there, once right after a
    streamed fetch. *)
Lemma fetch_package_skips_present_witness :
  let X := host 0 (Some 12) idle in
  let after := snd (fetch_package X into_cwd db pkg12 nothing) in
  fetch_package X into_cwd db pkg12 present = (0, present) /\
  fetch_package X into_cwd db pkg12 after = (0, after).
Proof.
  intros X after. split.
  - apply fetch_package_skips_present; [reflexivity|]. left. reflexivity.
  - apply fetch_package_skips_present; [reflexivity|]. right.
    exists nothing, (w_trace after), {| is_token := 0 |}, 3, 12, 12.
    split; [reflexivity|]. split; [reflexivity|].
    split; [apply list_elem_of_In; vm_compute; tauto|].
    split; [|vm_compute; discriminate].
    intros t. vm_compute. discriminate.
Defined.

(** Why the destination must not be a symbolic link: [creat] follows the
    link and the 12 bytes arrive in the file it leads to, while [lstat]
    measures the link itself, 6 bytes; the second fetch streams again. *)
Example fetch_package_through_symbolic_link :
  let X := host 0 (Some 12) idle in
  let first := fetch_package X into_cwd db pkg12 redirected in
  let second := fetch_package X into_cwd db pkg12 (snd first) in
  fst first = 0 /\
  lstat "/tmp/x" (snd first) = Some 12 /\
  lstat (outfile X into_cwd pkg12) (snd first) = Some 6 /\
  w_trace (snd second) =
    w_trace (snd first) ++
    [Message "Downloading hello-1.2";
     Sys_creat "./hello-1.2.apk" 3;
     Stream_open "http://mirror/hello-1.2.apk" true;
     Stream_splice {| is_token := 0 |} 3 12 12;
     Stream_close {| is_token := 0 |};
     Sys_close 3].
Proof. vm_compute. repeat split. Qed.

(** C4 as stated fails: the package is a member of no repository slot, yet
    [fetch_package] returns 0 and reports nothing, because a file of the
    declared size is already at the output path. *)
Lemma fetch_package_repository_counterexample :
  let X := host 0 None idle in
  (forall j, (j < APK_MAX_REPOS X)%nat -> has_flag (pkg_repos orphan) (BIT j) = false) /\
  fetch_package X into_cwd db orphan present = (0, present).
Proof. split; [intros j _; apply has_flag_zero | reflexivity]. Qed.

(** C4, as amended, on a streamed fetch and on a package without repository. *)
Lemma fetch_package_repository_witness :
  let X := host 0 (Some 12) idle in
  (forall locator opened,
      Stream_open locator opened ∈
        w_trace (snd (fetch_package X into_cwd db pkg12 nothing)) ->
      (find_repo X pkg12 < APK_MAX_REPOS X)%nat /\
      locator = snprintf 256 (apk_path (url (db_repos db (find_repo X pkg12))) pkg12)) /\
  fetch_package X into_cwd db orphan nothing =
    (-1, apk_error (not_present orphan) (apk_message (downloading orphan) nothing)).
Proof.
  intros X. split.
  - intros locator opened Hin.
    destruct (fetch_package_repository X into_cwd db pkg12) as (_ & Hchosen & _).
    apply (Hchosen nothing _ _ _ locator opened (surjective_pairing _) eq_refl Hin).
  - destruct (fetch_package_repository X into_cwd db orphan) as (_ & _ & Hnone).
    apply Hnone; [intros j _; apply has_flag_zero | reflexivity].
Defined.

(** C7 with nothing at the destination. *)
Lemma fetch_package_simulate_witness :
  let X := host 2 (Some 12) idle in
  exists w',
    fetch_package X into_cwd db pkg12 nothing = (0, w') /\
    w_fs w' = w_fs nothing /\ w_inodes w' = w_inodes nothing /\
    w_fds w' = w_fds nothing /\
    (since nothing w' [] \/ since nothing w' [Message (downloading pkg12)]).
Proof.
  intros X. apply (fetch_package_simulate X into_cwd db pkg12 nothing).
  - reflexivity.
  - exists 0%nat. split; [vm_compute; lia | reflexivity].
Defined.

(** C8 on an artifact hard-linked from the pool. *)
Lemma fetch_package_link_shortcut_witness :
  let X := host 0 (Some 12) idle in
  let run := fetch_package X linking db local12 mirror in
  fst run = 0 /\
  has_flag (flags linking) FETCH_LINK = true /\
  apk_url_local_file X (infile db local12 (find_repo X local12)) = true /\
  "/srv/pool/hello-1.2.apk" =
    real_infile X (infile db local12 (find_repo X local12)) mirror /\
  "./hello-1.2.apk" = outfile X linking local12 /\
  w_trace (snd run) =
    [Message (downloading local12);
     Sys_link "/srv/pool/hello-1.2.apk" "./hello-1.2.apk" 0] /\
  (forall e, e ∈ w_trace (snd run) -> streaming e = false).
Proof.
  intros X run.
  apply (fetch_package_link_shortcut X linking db local12 mirror (fst run) (snd run)).
  - apply surjective_pairing.
  - reflexivity.
  - apply list_elem_of_In. vm_compute. tauto.
Defined.

(** C10 on a package without repository whose file is there. *)
Lemma fetch_package_skip_precedes_lookup_witness :
  let X := host 0 None idle in
  find_repo X orphan = APK_MAX_REPOS X /\
  fetch_package X into_cwd db orphan present = (0, present).
Proof.
  intros X. apply fetch_package_skip_precedes_lookup.
  - reflexivity.
  - reflexivity.
  - intros j _. apply has_flag_zero.
Defined.

(** C5 on the variants 1.0, 1.2, 1.1. *)
Lemma fetch_arg_selects_greatest_witness :
  let X := host 0 (Some 12) idle in
  let items := [hello "1.0" 10 1; hello "1.2" 12 1; hello "1.1" 11 1] in
  exists i pkg,
    items !! i = Some pkg /\
    (forall q, q ∈ items -> ~ greater X q pkg) /\
    (forall j q, (j < i)%nat -> items !! j = Some q -> greater X pkg q) /\
    select_pkg X items None = Some pkg /\
    fetch_arg X into_cwd db "hello" nothing =
      (let '(r, w') := call_fetch_package X into_cwd db pkg nothing in
       if negb (r =? 0) then Leave r w' else Continue r w').
Proof.
  intros X items.
  apply (fetch_arg_selects_greatest X into_cwd db "hello" items nothing).
  - reflexivity.
  - reflexivity.
  - discriminate.
  - intros a. unfold greater. simpl. rewrite Z.compare_refl. discriminate.
  - intros a b c. unfold greater. simpl.
    destruct (Z.compare_spec (minor (pkg_version a)) (minor (pkg_version b)));
      destruct (Z.compare_spec (minor (pkg_version b)) (minor (pkg_version c)));
      destruct (Z.compare_spec (minor (pkg_version a)) (minor (pkg_version c)));
      try discriminate; try reflexivity; lia.
  - intros a b c. unfold greater. simpl.
    destruct (Z.compare_spec (minor (pkg_version a)) (minor (pkg_version b)));
      destruct (Z.compare_spec (minor (pkg_version b)) (minor (pkg_version c)));
      destruct (Z.compare_spec (minor (pkg_version a)) (minor (pkg_version c)));
      try discriminate; intros _; try (left; reflexivity); try (right; reflexivity); lia.
Defined.

Example select_pkg_example :
  select_pkg (host 0 None idle)
    [hello "1.0" 10 1; hello "1.2" 12 1; hello "1.1" 11 1] None
  = Some (hello "1.2" 12 1).
Proof. reflexivity. Qed.

(** C6 on the closure [liba; libb; libc], [libb] being in no repository. *)
Lemma recursive_fetch_in_order_witness :
  let X := host 0 (Some 12) closure in
  let w1 := emit (Db_open 0) nothing in
  let state := fst (apk_state_new db w1) in
  let w2 := snd (apk_state_new db w1) in
  let changes := snd closure in
  (exists w3 evs,
      fetched_all X recursive db (map newpkg changes) w2 w3 /\
      since w2 w3 evs /\ calls evs = map newpkg changes /\
      fetch_arg X recursive db "app" w1 =
        Continue 0 (apk_state_unref
                      {| state_id := state_id state; change_list := changes |} w3))
  \/
  (exists done c after w3 r w' evs,
      changes = done ++ c :: after /\
      fetched_all X recursive db (map newpkg done) w2 w3 /\
      call_fetch_package X recursive db (newpkg c) w3 = (r, w') /\ r <> 0 /\
      since w2 w' evs /\ calls evs = map newpkg (done ++ [c]) /\
      fetch_arg X recursive db "app" w1 = Leave r w' /\
      fetch_main X recursive ([] ++ "app" :: ["more"]) nothing
        = Some (r, apk_db_close w')).
Proof.
  intros X w1.
  apply (recursive_fetch_in_order X recursive db [] "app" ["more"] nothing 0 w1 (snd closure)).
  - reflexivity.
  - reflexivity.
  - reflexivity.
  - reflexivity.
Defined.

Example recursive_fetch_example :
  let X := host 0 (Some 12) closure in
  exists w',
    fetch_main X recursive ["app"; "more"] nothing = Some (-1, w') /\
    calls (w_trace w') = [liba; libb].
Proof. eexists. split; [vm_compute; reflexivity | reflexivity]. Qed.

(** C9.  The claim fails on the code: when the fetch of a package of the
    closure fails, [fetch_main] goes to [err] past [apk_state_unref], and
    the session opened for the argument is still live when it returns.
    (When the engine itself fails, the session is released first.) *)
Theorem fetch_main_leaves_session :
  let X := host 0 (Some 5) (0, [{| newpkg := pkg12 |}]) in
  let Y := host 0 (Some 5) (-1, []) in
  (exists w',
      fetch_main X recursive ["hello"] nothing = Some (-1, w') /\
      w_states w' = {[ 0%nat ]} /\
      w_trace w' =
        [Db_open 0; State_new 0; Call_fetch_package pkg12;
         Message "Downloading hello-1.2";
         Sys_creat "./hello-1.2.apk" 3;
         Stream_open "http://mirror/hello-1.2.apk" true;
         Stream_splice {| is_token := 0 |} 3 12 5;
         Stream_close {| is_token := 0 |};
         Sys_close 3;
         Error "Unable to download 'http://mirror/hello-1.2.apk'";
         Sys_unlink "./hello-1.2.apk";
         Db_close]) /\
  (exists w',
      fetch_main Y recursive ["hello"] nothing = Some (-1, w') /\
      w_states w' = ∅ /\
      w_trace w' =
        [Db_open 0; State_new 0; State_unref 0;
         Error "Unable to install 'hello'"; Db_close]).
Proof.
  split; eexists; (split; [vm_compute; reflexivity|]); split; vm_compute; reflexivity.
Qed.

(** ** Properties of fetch_parse *)

(** Testing a flag whose mask is a power of two reads one bit. *)
Lemma has_flag_pow2 f k : 0 <= k -> has_flag f (2 ^ k) = Z.testbit f k.
Proof.
  intros Hk. unfold has_flag.
  destruct (Z.testbit f k) eqn:Hbit.
  - destruct (Z.eqb_spec (Z.land f (2 ^ k)) 0) as [H0|]; [|done].
    assert (Z.testbit (Z.land f (2 ^ k)) k = true) as Ht
      by (rewrite Z.land_spec, Hbit, Z.pow2_bits_true; done).
    rewrite H0, Z.bits_0 in Ht. done.
  - assert (Z.land f (2 ^ k) = 0) as ->; [|done].
    apply Z.bits_inj'. intros n Hn. rewrite Z.land_spec, Z.bits_0.
    destruct (decide (n = k)) as [->|Hne]; [by rewrite Hbit|].
    rewrite Z.pow2_bits_false by lia. apply andb_false_r.
Qed.

Lemma has_flag_lor f k j :
  0 <= k -> 0 <= j ->
  has_flag (Z.lor f (2 ^ k)) (2 ^ j) = has_flag f (2 ^ j) || (k =? j).
Proof.
  intros Hk Hj. rewrite !has_flag_pow2, Z.lor_spec by done. f_equal.
  destruct (Z.eqb_spec k j) as [->|Hne].
  - by apply Z.pow2_bits_true.
  - apply Z.pow2_bits_false. lia.
Qed.

Lemma mode_bit_pow2 mask : mode_bit mask -> exists k, 0 <= k /\ mask = 2 ^ k.
Proof.
  intros [-> | [-> | ->] ]; [exists 0 | exists 1 | exists 2]; by split.
Qed.

Lemma has_flag_lor_mode f m1 m2 :
  mode_bit m1 -> mode_bit m2 ->
  has_flag (Z.lor f m1) m2 = has_flag f m2 || (m1 =? m2).
Proof.
  intros (k & Hk & ->)%mode_bit_pow2 (j & Hj & ->)%mode_bit_pow2.
  rewrite has_flag_lor by done. f_equal.
  destruct (Z.eqb_spec k j) as [->|Hne]; [by rewrite Z.eqb_refl|].
  symmetry. apply Z.eqb_neq. intros Heq. apply Hne.
  by apply (Z.pow_inj_r 2).
Qed.

Lemma lor_mode_range f m :
  mode_bit m -> 0 <= f < 2 ^ 32 -> 0 <= Z.lor f m < 2 ^ 32.
Proof.
  intros Hm [Hf0 Hf]. assert (0 <= m < 2 ^ 32) as [Hm0 Hm32].
  { destruct Hm as [-> | [-> | ->] ]; done. }
  split; [by apply Z.lor_nonneg|].
  destruct (decide (Z.lor f m = 0)) as [->|Hne]; [done|].
  assert (0 <= Z.lor f m) by by apply Z.lor_nonneg.
  apply Z.log2_lt_pow2; [lia|]. rewrite Z.log2_lor by done.
  apply Z.max_lub_lt.
  - destruct (decide (f = 0)) as [->|]; [done|]. apply Z.log2_lt_pow2; lia.
  - destruct (decide (m = 0)) as [->|]; [done|]. apply Z.log2_lt_pow2; lia.
Qed.

Lemma mode_letter_bit optch mask : mode_letter optch mask -> mode_bit mask.
Proof. unfold mode_letter, mode_bit. tauto. Qed.

Lemma fetch_parse_mode_letter ctx optch optindex optarg mask :
  mode_letter optch mask ->
  fetch_parse ctx optch optindex optarg =
    (0, {| flags := Z.lor (flags ctx) mask; outdir := outdir ctx |}).
Proof. by intros [ [-> ->] | [ [-> ->] | [-> ->] ] ]. Qed.

(** X1.  Each of the letters R, s and L is accepted (0 is returned): its
    own mode is on afterwards, the other two modes and [outdir] are as
    before, and [flags] still fits an [unsigned]. *)
Theorem fetch_parse_sets_mode ctx optch optindex optarg mask :
  mode_letter optch mask ->
  exists ctx',
    fetch_parse ctx optch optindex optarg = (0, ctx') /\
    outdir ctx' = outdir ctx /\
    has_flag (flags ctx') mask = true /\
    (forall m, mode_bit m -> m <> mask ->
       has_flag (flags ctx') m = has_flag (flags ctx) m) /\
    (0 <= flags ctx < 2 ^ 32 -> 0 <= flags ctx' < 2 ^ 32).
Proof.
  intros Hl. pose proof (mode_letter_bit _ _ Hl) as Hm.
  eexists. split; [by apply fetch_parse_mode_letter|]. simpl.
  split; [done|]. split; [|split].
  - rewrite has_flag_lor_mode by done. rewrite Z.eqb_refl. apply orb_true_r.
  - intros m Hm' Hne. rewrite has_flag_lor_mode by done.
    destruct (Z.eqb_spec mask m); [congruence|]. apply orb_false_r.
  - by apply lor_mode_range.
Qed.

(** X2.  The order in which mode letters and -o are parsed does not
    matter, a letter parsed twice counts once, and of two -o the later
    one decides [outdir]. *)
Theorem fetch_parse_order ctx a b ma mb i1 i2 arg1 arg2 :
  mode_letter a ma -> mode_letter b mb ->
  let after c optch i arg := snd (fetch_parse c optch i arg) in
  after (after ctx a i1 arg1) b i2 arg2 = after (after ctx b i2 arg2) a i1 arg1 /\
  after (after ctx a i1 arg1) a i2 arg2 = after ctx a i1 arg1 /\
  after (after ctx a i1 arg1) (chr "o") i2 arg2 =
    after (after ctx (chr "o") i2 arg2) a i1 arg1 /\
  outdir (after (after ctx (chr "o") i1 arg1) (chr "o") i2 arg2) = arg2.
Proof.
  intros Ha Hb after. unfold after.
  rewrite !(fetch_parse_mode_letter _ a _ _ ma Ha),
    !(fetch_parse_mode_letter _ b _ _ mb Hb). simpl.
  repeat split.
  - f_equal. rewrite <- !Z.lor_assoc. f_equal. apply Z.lor_comm.
  - f_equal. by rewrite <- Z.lor_assoc, Z.lor_diag.
Qed.

(** X3.  Of the options registered in [fetch_options], [fetch_parse]
    accepts all but "link": its letter l is answered with -1 and an
    unchanged context (the parser knows L instead), so no registered
    option changes link mode. *)
Theorem fetch_options_parsed ctx o optindex optarg :
  o ∈ fetch_options ->
  (fst (fetch_parse ctx (opt_name o) optindex optarg) = 0 <-> opt_long o <> "link") /\
  (opt_long o = "link" ->
   fetch_parse ctx (opt_name o) optindex optarg = (-1, ctx)) /\
  has_flag (flags (snd (fetch_parse ctx (opt_name o) optindex optarg))) FETCH_LINK
    = has_flag (flags ctx) FETCH_LINK.
Proof.
  unfold fetch_options. intros Ho.
  repeat (apply elem_of_cons in Ho as [->|Ho]); [| | | |by apply elem_of_nil in Ho].
  - split; [split; [done|intros H; by destruct H]|]. by split.
  - split; [split; [done|done]|]. split; [done|].
    change (has_flag (Z.lor (flags ctx) FETCH_RECURSIVE) FETCH_LINK = has_flag (flags ctx) FETCH_LINK).
    rewrite has_flag_lor_mode; [apply orb_false_r| |]; unfold mode_bit; tauto.
  - split; [split; [done|done]|]. split; [done|].
    change (has_flag (Z.lor (flags ctx) FETCH_STDOUT) FETCH_LINK = has_flag (flags ctx) FETCH_LINK).
    rewrite has_flag_lor_mode; [apply orb_false_r| |]; unfold mode_bit; tauto.
  - split; [split; [done|done]|]. by split.
Qed.

(** ** The exact course of fetch_package *)

Section Fetch_package_course.

Variable X : extern.

Lemma write_fd_emit fd n e w : write_fd fd n (emit e w) = emit e (write_fd fd n w).
Proof. unfold write_fd. simpl. by repeat case_match. Qed.

(** What the stream part does from [w], event by event. *)
Lemma fetch_to_run fctx db pkg i fd w r w' :
  fetch_to X fctx db pkg i fd w = (r, w') ->
  (apk_istream_from_url X (infile db pkg i) = None /\ r = -1 /\
   since w w' [Stream_open (infile db pkg i) false;
               Error (unable_to_download (infile db pkg i))] /\
   (w_fs w' = w_fs w /\ w_inodes w' = w_inodes w) /\ w_fds w' = w_fds w)
  \/
  (exists ist,
     apk_istream_from_url X (infile db pkg i) = Some ist /\
     let r0 := apk_istream_splice X ist fd (pkg_size pkg) in
     since w w'
       ([Stream_open (infile db pkg i) true;
         Stream_splice ist fd (pkg_size pkg) r0; Stream_close ist] ++
        (if fd =? STDOUT_FILENO then [] else [Sys_close fd]) ++
        (if r0 =? pkg_size pkg then []
         else [Error (unable_to_download (infile db pkg i));
               Sys_unlink (outfile X fctx pkg)])) /\
     r = (if r0 =? pkg_size pkg then 0 else -1) /\
     ((forall q, q <> outfile X fctx pkg -> w_fs w' !! q = w_fs w !! q) /\
      (r0 = pkg_size pkg -> w_fs w' = w_fs w) /\
      (r0 <> pkg_size pkg -> unlink_errno X (outfile X fctx pkg) = 0 ->
       w_fs w' !! outfile X fctx pkg = None) /\
      (r0 <> pkg_size pkg -> unlink_errno X (outfile X fctx pkg) <> 0 ->
       w_fs w' = w_fs w) /\
      w_inodes w' = w_inodes (write_fd fd (Z.max 0 r0) w)) /\
     w_fds w' = (if fd =? STDOUT_FILENO then w_fds w else delete fd (w_fds w))).
Proof.
  unfold fetch_to, istream_from_url.
  destruct (apk_istream_from_url X (infile db pkg i)) as [ist|].
  - intros H. right. exists ist. split; [done|]. cbv zeta.
    unfold fetch_stream, istream_splice in H.
    set (r0 := apk_istream_splice X ist fd (pkg_size pkg)) in *.
    destruct (Z.eqb_spec r0 (pkg_size pkg)) as [Hr|Hr]; simpl in H.
    + simplify_eq.
      destruct (fd =? STDOUT_FILENO); simpl; rewrite write_fd_emit;
        (split; [unfold since; simpl; by rewrite trace_write_fd, <- ?app_assoc|]);
        (split; [done|]); simpl; rewrite ?fds_write_fd, ?fs_write_fd;
        (split; [|done]); repeat split; done.
    + destruct (unlink X _ _) as [u w2] eqn:Hu. simplify_eq.
      apply unlink_inv in Hu as (Hs & Hino & Hfds & Hframe & Hgone & Hkept).
      rewrite write_fd_emit in *.
      split.
      { unfold since in *. rewrite Hs.
        destruct (fd =? STDOUT_FILENO); simpl;
          rewrite trace_write_fd, <- ?app_assoc; simpl;
          rewrite <- ?app_assoc; reflexivity. }
      split; [done|]. split.
      * split.
        { intros q Hq. rewrite (Hframe q Hq).
          destruct (fd =? STDOUT_FILENO); simpl; by rewrite fs_write_fd. }
        split; [done|]. split; [by intros _|]. split.
        { intros _ Hno. rewrite (Hkept Hno).
          destruct (fd =? STDOUT_FILENO); simpl; by rewrite fs_write_fd. }
        rewrite Hino. by destruct (fd =? STDOUT_FILENO).
      * rewrite Hfds. destruct (fd =? STDOUT_FILENO); simpl; by rewrite fds_write_fd.
  - intros [= <- <-]. left. repeat split. apply since_cons, since_emit.
Qed.

(** What creating the destination and streaming into it does from [w]. *)
Lemma fetch_create_run fctx db pkg i w r w' :
  fetch_create X fctx db pkg i w = (r, w') ->
  (r = -1 /\
   since w w' [Sys_creat (outfile X fctx pkg) (-1);
               Error (creat_failed X (outfile X fctx pkg)
                        (creat_error X (outfile X fctx pkg) w))] /\
   (w_fs w' = w_fs w /\ w_inodes w' = w_inodes w) /\ w_fds w' = w_fds w /\
   fst (creat X (outfile X fctx pkg) w) =
     (-1, creat_error X (outfile X fctx pkg) w))
  \/
  (exists fd p w1 tail,
     0 <= fd /\ fd = unused (w_fds w) /\
     follow MAXSYMLINKS (w_fs w) (outfile X fctx pkg) = Some p /\
     (exists ino,
        (w_fs w !! p = Some (File ino) \/
         w_fs w !! p = None /\ w_inodes w !! ino = None) /\
        w_fs w1 = <[p := File ino]> (w_fs w) /\
        w_inodes w1 = <[ino := 0]> (w_inodes w)) /\
     w_fds w1 = <[fd := p]> (w_fds w) /\
     fetch_to X fctx db pkg i fd w1 = (r, w') /\
     since w1 w' tail /\
     since w w' (Sys_creat (outfile X fctx pkg) fd :: tail)).
Proof.
  unfold fetch_create.
  destruct (creat X (outfile X fctx pkg) w) as [[fd errno] w1] eqn:Hc.
  destruct (creat_inv X _ _ _ _ _ Hc)
    as [Hs [(-> & -> & Hfs & Hino & Hfds)
           |(Hfd & Hlow & p & ino & Hp & Hwas & Hfs & Hino & Hfds)]].
  - simpl. intros [= <- <-]. left. repeat split; try done.
    exact (since_trans _ _ _ _ _ Hs (since_emit _ w1)).
  - destruct (Z.ltb_spec fd 0) as [|_]; [lia|]. intros H. right.
    destruct (fetch_to_run _ _ _ _ _ _ _ _ H) as [(_ & _ & Hs' & _)|(ist & _ & Hs' & _)];
      eexists fd, p, w1, _;
      (split; [done|]); (split; [done|]); (split; [done|]);
      (split; [by exists ino|]); (split; [done|]); (split; [exact H|]);
      (split; [exact Hs'|]); exact (since_trans _ _ _ _ _ Hs Hs').
Qed.


Lemma link_fds a b w : w_fds (snd (link X a b w)) = w_fds w.
Proof. unfold link. by repeat case_match. Qed.

(** The course of a fetch to a file. *)
Lemma fetch_package_file_run fctx db pkg w r w' :
  has_flag (flags fctx) FETCH_STDOUT = false ->
  fetch_package X fctx db pkg w = (r, w') ->
  (already_fetched X fctx pkg w = true /\ r = 0 /\ w' = w)
  \/
  (already_fetched X fctx pkg w = false /\
   ((APK_MAX_REPOS X <= find_repo X pkg)%nat /\ r = -1 /\
    w' = apk_error (not_present pkg) (apk_message (downloading pkg) w)
    \/
    (find_repo X pkg < APK_MAX_REPOS X)%nat /\
    (has_flag (apk_flags X) (APK_SIMULATE X) = true /\ r = 0 /\
     w' = apk_message (downloading pkg) w
     \/
     has_flag (apk_flags X) (APK_SIMULATE X) = false /\
     ((r = 0 /\
       since w w' [Message (downloading pkg);
                   Sys_link (real_infile X (infile db pkg (find_repo X pkg)) w)
                     (outfile X fctx pkg) 0] /\
       w_fs w !! outfile X fctx pkg = None /\
       (exists nd,
          w_fs w !! real_infile X (infile db pkg (find_repo X pkg)) w = Some nd /\
          w_fs w' = <[outfile X fctx pkg := nd]> (w_fs w)) /\
       w_fds w' = w_fds w /\ w_inodes w' = w_inodes w)
      \/
      (exists lk w1,
         link_skipped X fctx db pkg w lk /\
         since w w1 (Message (downloading pkg) :: lk) /\
         w_fs w1 = w_fs w /\ w_fds w1 = w_fds w /\
         fetch_create X fctx db pkg (find_repo X pkg) w1 = (r, w') /\
         w_inodes w1 = w_inodes w))))).
Proof.
  intros Hout H. unfold fetch_package in H.
  destruct (already_fetched X fctx pkg w) eqn:Hskip.
  { injection H as <- <-. by left. }
  right. split; [done|].
  destruct (Nat.leb_spec (APK_MAX_REPOS X) (find_repo X pkg)) as [Hi|Hi].
  { injection H as <- <-. by left. }
  right. split; [done|].
  destruct (has_flag (apk_flags X) (APK_SIMULATE X)) eqn:Hsim.
  { injection H as <- <-. by left. }
  right. split; [done|]. rewrite Hout in H.
  destruct (has_flag (flags fctx) FETCH_LINK &&
            apk_url_local_file X (infile db pkg (find_repo X pkg)))%bool.
  - pose proof (link_fds (real_infile X (infile db pkg (find_repo X pkg))
                            (apk_message (downloading pkg) w))
                  (outfile X fctx pkg) (apk_message (downloading pkg) w)) as Hfds.
    pose proof (link_inodes X (real_infile X (infile db pkg (find_repo X pkg))
                                 (apk_message (downloading pkg) w))
                  (outfile X fctx pkg) (apk_message (downloading pkg) w)) as Hino.
    destruct (link X _ _ _) as [r1 w1] eqn:Hlk.
    apply link_inv in Hlk as [Hs [(-> & Hnone & nd & Hnd & Hfs)|(-> & Hfs & _)]];
      simpl in H.
    + injection H as <- <-. left. repeat split; try done.
      * apply since_cons, Hs.
      * by exists nd.
    + right. eexists _, w1.
      split; [by right|]. split; [apply since_cons, Hs|]. by repeat split.
  - right. eexists [], _.
    split; [by left|]. split; [apply since_emit|]. by repeat split.
Qed.

(** The course of a fetch to standard output. *)
Lemma fetch_package_stdout_run fctx db pkg w r w' :
  has_flag (flags fctx) FETCH_STDOUT = true ->
  fetch_package X fctx db pkg w = (r, w') ->
  (APK_MAX_REPOS X <= find_repo X pkg)%nat /\ r = -1 /\
  w' = apk_error (not_present pkg) (apk_message (downloading pkg) w)
  \/
  (find_repo X pkg < APK_MAX_REPOS X)%nat /\
  (has_flag (apk_flags X) (APK_SIMULATE X) = true /\ r = 0 /\
   w' = apk_message (downloading pkg) w
   \/
   has_flag (apk_flags X) (APK_SIMULATE X) = false /\
   fetch_to X fctx db pkg (find_repo X pkg) STDOUT_FILENO
     (apk_message (downloading pkg) w) = (r, w')).
Proof.
  intros Hout H. unfold fetch_package, already_fetched in H.
  rewrite Hout in H. simpl in H.
  destruct (Nat.leb_spec (APK_MAX_REPOS X) (find_repo X pkg)) as [Hi|Hi].
  { injection H as <- <-. by left. }
  right. split; [done|].
  destruct (has_flag (apk_flags X) (APK_SIMULATE X)) eqn:Hsim.
  { injection H as <- <-. by left. }
  by right.
Qed.

End Fetch_package_course.

(** ** Further properties of fetch_package *)

(** Splits a membership in an explicit trace into the events it can be. *)
Ltac which_event H :=
  repeat (rewrite ?elem_of_cons, ?elem_of_app, ?elem_of_nil in H);
  repeat match type of H with
         | _ \/ _ => destruct H as [H|H]
         | False => destruct H
         end;
  try discriminate H.

(** Finds an event in an explicit trace. *)
Ltac find_event :=
  simpl;
  solve [repeat first [ apply list_elem_of_here
                      | apply list_elem_of_further
                      | apply elem_of_app; right ]].

Section Fetch_package_more.

Variable X : extern.

(** X4.  [fetch_package] returns 0 or -1.  When it returns 0 no error was
    reported; when it returns -1 an error message is the last thing it did,
    but for the [unlink] that follows a short transfer. *)
Theorem fetch_package_reports_failure fctx db pkg w r w' evs :
  fetch_package X fctx db pkg w = (r, w') ->
  since w w' evs ->
  (r = 0 /\ forall text, Error text ∉ evs) \/
  (r = -1 /\ exists text before, evs = before ++ [Error text] \/
                                 evs = before ++ [Error text; Sys_unlink (outfile X fctx pkg)]).
Proof.
  intros Hrun Hs. apply fetch_package_ending in Hrun as (evs' & Hs' & Hend).
  rewrite (since_inj _ _ _ _ Hs Hs'). clear Hs Hs' evs.
  destruct Hend.
  - left. split; [done|]. intros text Hin. by which_event Hin.
  - right. split; [done|]. exists (not_present pkg), [Message (downloading pkg)]. by left.
  - left. split; [done|]. intros text Hin. by which_event Hin.
  - left. split; [done|]. intros text Hin. by which_event Hin.
  - right. split; [done|]. eexists _, (Message _ :: pre ++ [Sys_creat _ _]). left.
    simpl. by rewrite <- app_assoc.
  - right. split; [done|]. eexists _, (Message _ :: pre ++ [Stream_open _ _]). left.
    simpl. by rewrite <- app_assoc.
  - right. split; [done|].
    eexists _, (Message _ :: pre ++ Stream_open _ _ :: Stream_splice _ _ _ _ :: Stream_close _ :: cl).
    right. simpl. rewrite <- app_assoc. simpl. done.
  - left. split; [done|]. intros text Hin. by in_trace Hin.
Qed.



(** X6.  A call that returns 0 with stdout mode, simulate and link mode
    off, on a destination that was not a symbolic link, leaves at the
    output path an entry of exactly the declared size. *)
Theorem fetch_package_success_leaves_artifact fctx db pkg w w' :
  has_flag (flags fctx) FETCH_STDOUT = false ->
  has_flag (apk_flags X) (APK_SIMULATE X) = false ->
  has_flag (flags fctx) FETCH_LINK = false ->
  (forall t, w_fs w !! outfile X fctx pkg <> Some (Symlink t)) ->
  0 <= pkg_size pkg ->
  fetch_package X fctx db pkg w = (0, w') ->
  lstat (outfile X fctx pkg) w' = Some (pkg_size pkg).
Proof.
  intros Hout Hsim Hlink Hsym Hsz Hrun.
  apply fetch_package_ending in Hrun as (evs & _ & Hend).
  inversion Hend; subst; try congruence.
  - unfold already_fetched in *. rewrite Hout in *. simpl in *.
    destruct (lstat (outfile X fctx pkg) w') as [sz|]; [|done].
    by match goal with H : (_ =? _) = true |- _ => apply Z.eqb_eq in H as -> end.
  - by match goal with H : _ -> _ -> _ -> lstat _ w' = _ |- _ => apply H end.
Qed.


(** A fetch to standard output makes no file, links none, closes none,
    and splices into descriptor 1 only. *)
Lemma fetch_package_stdout_events fctx db pkg w r w' evs :
  has_flag (flags fctx) FETCH_STDOUT = true ->
  fetch_package X fctx db pkg w = (r, w') ->
  since w w' evs ->
  forall e, e ∈ evs ->
    match e with
    | Sys_creat _ _ | Sys_link _ _ _ | Sys_close _ => False
    | Stream_splice _ fd _ _ => fd = STDOUT_FILENO
    | _ => True
    end.
Proof.
  intros Hout Hrun Hs.
  destruct (fetch_package_stdout_run X _ _ _ _ _ _ Hout Hrun)
    as [(_ & _ & ->)|(_ & [(_ & _ & ->)|(_ & Hto)])].
  - rewrite (since_inj _ _ _ _ Hs (since_cons _ _ _ _ (since_emit _ _))).
    intros e He. by which_event He; subst.
  - rewrite (since_inj _ _ _ _ Hs (since_emit _ _)).
    intros e He. by which_event He; subst.
  - apply fetch_to_run in Hto as [(_ & _ & Hs' & _)|(ist & _ & Hs' & _)];
      rewrite (since_inj _ _ _ _ Hs (since_cons _ _ _ _ Hs')); intros e He.
    + by which_event He; subst.
    + change (STDOUT_FILENO =? STDOUT_FILENO) with true in He.
      destruct (_ =? pkg_size pkg); by which_event He; subst.
Qed.

(** X7.  In stdout mode the skip-if-present check is not made (the
    progress message is always the first event), no file is created,
    linked or closed, every splice goes to descriptor 1, and the table of
    descriptors is as before. *)
Theorem fetch_package_stdout fctx db pkg w r w' evs :
  has_flag (flags fctx) FETCH_STDOUT = true ->
  fetch_package X fctx db pkg w = (r, w') ->
  since w w' evs ->
  (exists tail, evs = Message (downloading pkg) :: tail) /\
  (forall e, e ∈ evs ->
     match e with
     | Sys_creat _ _ | Sys_link _ _ _ | Sys_close _ => False
     | Stream_splice _ fd _ _ => fd = STDOUT_FILENO
     | _ => True
     end) /\
  w_fds w' = w_fds w.
Proof.
  intros Hout Hrun Hs.
  split; [|split; [by eapply fetch_package_stdout_events|] ].
  - destruct (fetch_package_stdout_run X _ _ _ _ _ _ Hout Hrun)
      as [(_ & _ & ->)|(_ & [(_ & _ & ->)|(_ & Hto)])].
    + rewrite (since_inj _ _ _ _ Hs (since_cons _ _ _ _ (since_emit _ _))). by eexists.
    + rewrite (since_inj _ _ _ _ Hs (since_emit _ _)). by eexists.
    + apply fetch_to_run in Hto as [(_ & _ & Hs' & _)|(ist & _ & Hs' & _)];
        rewrite (since_inj _ _ _ _ Hs (since_cons _ _ _ _ Hs')); by eexists.
  - destruct (fetch_package_stdout_run X _ _ _ _ _ _ Hout Hrun)
      as [(_ & _ & ->)|(_ & [(_ & _ & ->)|(_ & Hto)])]; [done..|].
    by apply fetch_to_run in Hto as [(_ & _ & _ & _ & ->)|(ist & _ & _ & _ & _ & ->)].
Qed.

(** X8.  In stdout mode a short transfer still ends with [unlink(outfile)]
    (line 122), although [outfile] is written only when stdout mode is off
    (lines 63-69): [unlink] is called on whatever the buffer holds.  Where
    the host lets it succeed there is no entry of that name afterwards;
    no other entry changes. *)
Theorem fetch_package_stdout_short_unlinks fctx db pkg w r w' evs ist fd sz n :
  has_flag (flags fctx) FETCH_STDOUT = true ->
  fetch_package X fctx db pkg w = (r, w') ->
  since w w' evs ->
  Stream_splice ist fd sz n ∈ evs ->
  n <> pkg_size pkg ->
  r = -1 /\
  (exists before, evs = before ++ [Sys_unlink (stack_outfile X)]) /\
  (forall q, q <> stack_outfile X -> w_fs w' !! q = w_fs w !! q) /\
  (unlink_errno X (stack_outfile X) = 0 -> w_fs w' !! stack_outfile X = None) /\
  (unlink_errno X (stack_outfile X) <> 0 -> w_fs w' = w_fs w).
Proof.
  intros Hout Hrun Hs Hin Hn.
  assert (Hpath : outfile X fctx pkg = stack_outfile X)
    by (unfold outfile; by rewrite Hout).
  destruct (fetch_package_stdout_run X _ _ _ _ _ _ Hout Hrun)
    as [(_ & _ & ->)|(_ & [(_ & _ & ->)|(_ & Hto)])].
  - rewrite (since_inj _ _ _ _ Hs (since_cons _ _ _ _ (since_emit _ _))) in Hin.
    by which_event Hin.
  - rewrite (since_inj _ _ _ _ Hs (since_emit _ _)) in Hin. by which_event Hin.
  - apply fetch_to_run in Hto
      as [(_ & _ & Hs' & _)
         |(ist0 & _ & Hs' & Hr & (Hframe & _ & Hgone & Hkept & _) & _)];
      rewrite (since_inj _ _ _ _ Hs (since_cons _ _ _ _ Hs')) in Hin |- *.
    { by which_event Hin. }
    rewrite Hpath in *. simpl in Hframe, Hkept.
    change (STDOUT_FILENO =? STDOUT_FILENO) with true in *.
    destruct (Z.eqb_spec (apk_istream_splice X ist0 STDOUT_FILENO (pkg_size pkg))
                (pkg_size pkg)) as [Hgot|Hgot].
    { which_event Hin. congruence. }
    split; [done|]. split; [|by auto].
    by eexists [_; _; _; _; _].
Qed.

(** A fetch to a file that gets as far as [creat]: the events so far,
    then the course of [fetch_create]. *)
Lemma fetch_package_creat_inv fctx db pkg w r w' evs path fd :
  fetch_package X fctx db pkg w = (r, w') ->
  since w w' evs ->
  Sys_creat path fd ∈ evs ->
  has_flag (flags fctx) FETCH_STDOUT = false /\
  path = outfile X fctx pkg /\
  exists lk w1 tail,
    link_skipped X fctx db pkg w lk /\
    since w w1 (Message (downloading pkg) :: lk) /\
    w_fs w1 = w_fs w /\ w_fds w1 = w_fds w /\
    fetch_create X fctx db pkg (find_repo X pkg) w1 = (r, w') /\
    since w1 w' (Sys_creat path fd :: tail) /\
    evs = Message (downloading pkg) :: lk ++ Sys_creat path fd :: tail /\
    (forall p' fd', Sys_creat p' fd' ∉ tail) /\
    w_inodes w1 = w_inodes w.
Proof.
  intros Hrun Hs Hin.
  destruct (has_flag (flags fctx) FETCH_STDOUT) eqn:Hout.
  { destruct (fetch_package_stdout_events _ _ _ _ _ _ _ Hout Hrun Hs _ Hin). }
  split; [done|].
  destruct (fetch_package_file_run X _ _ _ _ _ _ Hout Hrun)
    as [(_ & _ & ->)|(_ & [(_ & _ & ->)|(_ & [(_ & _ & ->)|(_ & [(_ & Hs' & _)|
         (lk & w1 & Hlk & Hs1 & Hfs & Hfds & Hcr & Hino1)])])])].
  - rewrite (since_inj _ _ _ _ Hs (since_refl _)) in Hin. by which_event Hin.
  - rewrite (since_inj _ _ _ _ Hs (since_cons _ _ _ _ (since_emit _ _))) in Hin.
    by which_event Hin.
  - rewrite (since_inj _ _ _ _ Hs (since_emit _ _)) in Hin. by which_event Hin.
  - rewrite (since_inj _ _ _ _ Hs Hs') in Hin. by which_event Hin.
  - assert (Hnolk : forall p0 f0, Sys_creat p0 f0 ∉ lk).
    { intros p0 f0 H0. destruct Hlk as [->| ->]; by which_event H0. }
    destruct (fetch_create_run X _ _ _ _ _ _ _ Hcr)
      as [(_ & Hs' & _)|(fd0 & p & w2 & tail & _ & _ & _ & _ & _ & Hto & Hs2 & Hs')].
    + pose proof (since_trans _ _ _ _ _ Hs1 Hs') as Hall.
      rewrite (since_inj _ _ _ _ Hs Hall) in Hin |- *. simpl in Hin.
      which_event Hin; [by destruct (Hnolk _ _ Hin)|]; simplify_eq.
      split; [done|].
      exists lk, w1, [Error (creat_failed X (outfile X fctx pkg)
                               (creat_error X (outfile X fctx pkg) w1))].
      repeat split; try done. intros p' fd' H'. by which_event H'.
    + pose proof (since_trans _ _ _ _ _ Hs1 Hs') as Hall.
      rewrite (since_inj _ _ _ _ Hs Hall) in Hin |- *. simpl in Hin.
      assert (Hnotail : forall p0 f0, Sys_creat p0 f0 ∉ tail).
      { intros p0 f0 H0.
        apply fetch_to_run in Hto as [(_ & _ & Ht & _)|(ist & _ & Ht & _)];
          rewrite (since_inj _ _ _ _ Hs2 Ht) in H0;
          repeat match type of H0 with context [if ?c then _ else _] => destruct c end;
          by which_event H0. }
      which_event Hin; [by destruct (Hnolk _ _ Hin)| |by destruct (Hnotail _ _ Hin)].
      simplify_eq. split; [done|]. exists lk, w1, tail. by repeat split.
Qed.


(** [creat] looks at the entries and the descriptors only. *)
Lemma creat_same path w1 w :
  w_fs w1 = w_fs w -> w_inodes w1 = w_inodes w -> w_fds w1 = w_fds w ->
  fst (creat X path w1) = fst (creat X path w) /\
  creat_error X path w1 = creat_error X path w.
Proof.
  intros Hfs Hino Hfds. unfold creat, creat_error. rewrite Hfs, Hino, Hfds.
  by repeat case_match.
Qed.

(** X9.  When [creat] fails, [fetch_package] returns -1 right after
    reporting the output path with [strerror] of the [errno] that [creat]
    left; the entries, the files and the descriptors are as before and no
    stream is opened. *)
Theorem fetch_package_creat_failure fctx db pkg w r w' evs path fd :
  fetch_package X fctx db pkg w = (r, w') ->
  since w w' evs ->
  Sys_creat path fd ∈ evs ->
  fd < 0 ->
  r = -1 /\ path = outfile X fctx pkg /\
  w_fs w' = w_fs w /\ w_inodes w' = w_inodes w /\ w_fds w' = w_fds w /\
  (exists errno,
     fst (creat X path w) = (fd, errno) /\
     exists before,
       evs = before ++
             [Sys_creat path fd; Error (path +:+ ": " +:+ strerror X errno)]) /\
  (forall locator opened, Stream_open locator opened ∉ evs).
Proof.
  intros Hrun Hs Hin Hfd.
  destruct (fetch_package_creat_inv _ _ _ _ _ _ _ _ _ Hrun Hs Hin)
    as (Hout & -> & lk & w1 & tail & Hlk & Hs1 & Hfs & Hfds & Hcr & Hs2 & -> & _ & Hino).
  destruct (creat_same (outfile X fctx pkg) w1 w Hfs Hino Hfds) as [Hsame Herr].
  destruct (fetch_create_run X _ _ _ _ _ _ _ Hcr)
    as [(-> & Hs' & (Hfs' & Hino') & Hfds' & Hcreat)
       |(fd0 & p & w2 & tail0 & Hfd0 & _ & _ & _ & _ & _ & _ & Hs')];
    pose proof (since_inj _ _ _ _ Hs2 Hs') as Heq; simplify_eq; [|lia].
  split; [done|]. split; [done|]. split; [congruence|]. split; [congruence|].
  split; [congruence|]. split.
  - exists (creat_error X (outfile X fctx pkg) w). split; [congruence|].
    exists (Message (downloading pkg) :: lk).
    rewrite <- Herr. by rewrite <- app_comm_cons.
  - intros locator opened H. destruct Hlk as [->| ->]; by which_event H.
Qed.

(** X10.  When the destination was created and the stream opened, the
    bytes are spliced into the descriptor [creat] returned, the lowest one
    that was not open.  That descriptor is closed before [fetch_package]
    returns, whatever the splice gave, and the table of descriptors is
    then as before; unless it is descriptor 1 (standard output was closed
    when the call began): then line 118 skips [close] and the descriptor
    stays open. *)
Theorem fetch_package_closes_descriptor fctx db pkg w r w' evs path fd locator :
  fetch_package X fctx db pkg w = (r, w') ->
  since w w' evs ->
  Sys_creat path fd ∈ evs ->
  Stream_open locator true ∈ evs ->
  fd = unused (w_fds w) /\
  (exists ist n, Stream_splice ist fd (pkg_size pkg) n ∈ evs) /\
  (fd <> STDOUT_FILENO ->
   Sys_close fd ∈ evs /\ w_fds w' !! fd = None /\ w_fds w' = w_fds w) /\
  (fd = STDOUT_FILENO ->
   (forall fd', Sys_close fd' ∉ evs) /\
   exists p, follow MAXSYMLINKS (w_fs w) (outfile X fctx pkg) = Some p /\
             w_fds w' = <[fd := p]> (w_fds w)).
Proof.
  intros Hrun Hs Hin Hopen.
  destruct (fetch_package_creat_inv _ _ _ _ _ _ _ _ _ Hrun Hs Hin)
    as (Hout & -> & lk & w1 & tail & Hlk & Hs1 & Hfs & Hfds & Hcr & Hs2 & -> & _).
  destruct (fetch_create_run X _ _ _ _ _ _ _ Hcr)
    as [(-> & Hs' & _)
       |(fd0 & p & w2 & tail0 & Hfd0 & Hlow & Hp & _ & Hfds2 & Hto & Hs0 & Hs')];
    pose proof (since_inj _ _ _ _ Hs2 Hs') as Heq.
  { simplify_eq. destruct Hlk as [->| ->]; by which_event Hopen. }
  injection Heq as <- <-. rewrite Hfds in Hlow, Hfds2. rewrite Hfs in Hp.
  apply fetch_to_run in Hto as [(_ & _ & Ht & _)|(ist & _ & Ht & _ & _ & Hfds')];
    rewrite (since_inj _ _ _ _ Hs0 Ht) in Hopen |- *.
  { destruct Hlk as [->| ->]; by which_event Hopen. }
  split; [done|].
  split; [exists ist, (apk_istream_splice X ist fd (pkg_size pkg)); find_event|].
  destruct (Z.eqb_spec fd STDOUT_FILENO) as [Hone|Hone].
  - split; [done|]. intros _. split.
    + intros fd' H. destruct (_ =? pkg_size pkg);
        destruct Hlk as [->| ->]; by which_event H.
    + exists p. split; [done|]. by rewrite Hfds', Hfds2.
  - split; [|done]. intros _. split; [find_event|].
    rewrite Hfds', Hfds2. split; [apply lookup_delete_eq|].
    apply delete_insert_id. rewrite Hlow. apply unused_spec.
Qed.

(** X11.  When the destination was created and the stream then fails to
    open, [fetch_package] returns -1 and neither [close] nor [unlink] is
    called: the empty file stays where [creat] made it and its descriptor
    stays open. *)
Theorem fetch_package_open_failure fctx db pkg w r w' evs path fd locator :
  fetch_package X fctx db pkg w = (r, w') ->
  since w w' evs ->
  Sys_creat path fd ∈ evs ->
  Stream_open locator false ∈ evs ->
  r = -1 /\
  (exists p ino,
     follow MAXSYMLINKS (w_fs w) (outfile X fctx pkg) = Some p /\
     w_fs w' = <[p := File ino]> (w_fs w) /\
     w_inodes w' = <[ino := 0]> (w_inodes w) /\
     lstat p w' = Some 0 /\
     w_fds w' = <[fd := p]> (w_fds w)) /\
  (forall fd', Sys_close fd' ∉ evs) /\
  (forall p', Sys_unlink p' ∉ evs).
Proof.
  intros Hrun Hs Hin Hopen.
  destruct (fetch_package_creat_inv _ _ _ _ _ _ _ _ _ Hrun Hs Hin)
    as (Hout & -> & lk & w1 & tail & Hlk & Hs1 & Hfs & Hfds & Hcr & Hs2 & -> & _ & Hino).
  destruct (fetch_create_run X _ _ _ _ _ _ _ Hcr)
    as [(-> & Hs' & _)
       |(fd0 & p & w2 & tail0 & Hfd0 & Hlow & Hp & (ino & _ & Hfs2 & Hino2) & Hfds2
           & Hto & Hs0 & Hs')];
    pose proof (since_inj _ _ _ _ Hs2 Hs') as Heq.
  { simplify_eq. destruct Hlk as [->| ->]; by which_event Hopen. }
  injection Heq as <- <-.
  apply fetch_to_run in Hto as [(_ & -> & Ht & (Hfs' & Hino') & Hfds')|(ist & _ & Ht & _)];
    rewrite (since_inj _ _ _ _ Hs0 Ht) in Hopen |- *.
  - split; [done|]. split.
    + exists p, ino. rewrite Hfs in Hp, Hfs2. rewrite Hfds in Hfds2.
      rewrite Hino in Hino2.
      split; [done|]. split; [congruence|]. split; [congruence|].
      split; [|congruence].
      unfold lstat. rewrite Hfs', Hino', Hfs2, Hino2.
      by rewrite !lookup_insert_eq.
    + split; intros ? H; destruct Hlk as [->| ->]; by which_event H.
  - repeat match type of Hopen with context [if ?c then _ else _] => destruct c end;
      destruct Hlk as [->| ->]; by which_event Hopen.
Qed.


Lemma fetch_create_head fctx db pkg i w r w' evs :
  fetch_create X fctx db pkg i w = (r, w') ->
  since w w' evs ->
  exists fd tail,
    evs = Sys_creat (outfile X fctx pkg) fd :: tail /\
    forall a b r0, Sys_link a b r0 ∉ tail.
Proof.
  intros Hcr Hs.
  destruct (fetch_create_run X _ _ _ _ _ _ _ Hcr)
    as [(_ & Hs' & _)|(fd & p & w2 & tail & _ & _ & _ & _ & _ & Hto & Hs2 & Hs')];
    rewrite (since_inj _ _ _ _ Hs Hs'); eexists _, _; (split; [done|]);
    intros a b r0 H; [by which_event H|].
  apply fetch_to_run in Hto as [(_ & _ & Ht & _)|(ist & _ & Ht & _)];
    rewrite (since_inj _ _ _ _ Hs2 Ht) in H;
    repeat match type of H with context [if ?c then _ else _] => destruct c end;
    by which_event H.
Qed.


(** X13.  When the hard link was created there was no entry at the output
    path before, and afterwards the output path holds the entry of the
    link's source, whatever its size: the declared size is not compared.
    No other entry, no file and no descriptor changes. *)
Theorem fetch_package_link_result fctx db pkg w r w' evs oldpath newpath :
  fetch_package X fctx db pkg w = (r, w') ->
  since w w' evs ->
  Sys_link oldpath newpath 0 ∈ evs ->
  w_fs w !! newpath = None /\
  (exists nd, w_fs w !! oldpath = Some nd /\ w_fs w' = <[newpath := nd]> (w_fs w)) /\
  lstat newpath w' = lstat oldpath w /\
  w_fds w' = w_fds w /\ w_inodes w' = w_inodes w.
Proof.
  intros Hrun Hs Hin.
  destruct (has_flag (flags fctx) FETCH_STDOUT) eqn:Hout.
  { destruct (fetch_package_stdout_events _ _ _ _ _ _ _ Hout Hrun Hs _ Hin). }
  destruct (fetch_package_file_run X _ _ _ _ _ _ Hout Hrun)
    as [(_ & _ & ->)|(_ & [(_ & _ & ->)|(_ & [(_ & _ & ->)|(_ & [(_ & Hs' & Hnone & (nd & Hnd & Hfs) & Hfds & Hino)|
         (lk & w1 & Hlk & Hs1 & Hfs & Hfds & Hcr & Hino1)])])])].
  - rewrite (since_inj _ _ _ _ Hs (since_refl _)) in Hin. by which_event Hin.
  - rewrite (since_inj _ _ _ _ Hs (since_cons _ _ _ _ (since_emit _ _))) in Hin.
    by which_event Hin.
  - rewrite (since_inj _ _ _ _ Hs (since_emit _ _)) in Hin. by which_event Hin.
  - rewrite (since_inj _ _ _ _ Hs Hs') in Hin. which_event Hin. simplify_eq.
    split; [done|]. split; [by exists nd|]. split; [|done].
    unfold lstat. by rewrite Hfs, Hino, lookup_insert_eq, Hnd.
  - assert (exists evs1, since w1 w' evs1) as [evs1 Hs2].
    { destruct (fetch_create_run X _ _ _ _ _ _ _ Hcr)
        as [(_ & ? & _)|(? & ? & ? & ? & _ & _ & _ & _ & _ & _ & _ & ?)]; eauto. }
    destruct (fetch_create_head _ _ _ _ _ _ _ _ Hcr Hs2) as (fd & tail & -> & Hno).
    rewrite (since_inj _ _ _ _ Hs (since_trans _ _ _ _ _ Hs1 Hs2)) in Hin.
    simpl in Hin. which_event Hin; [|by destruct (Hno _ _ _ Hin)].
    destruct Hlk as [->| ->]; by which_event Hin.
Qed.

(** X14.  A failed [link] is not reported: it is the link from the path
    read through [readlink] to the output path, and the next thing
    [fetch_package] does is [creat] on the output path. *)
Theorem fetch_package_link_failure_falls_through
    fctx db pkg w r w' evs oldpath newpath r0 :
  fetch_package X fctx db pkg w = (r, w') ->
  since w w' evs ->
  Sys_link oldpath newpath r0 ∈ evs ->
  r0 <> 0 ->
  oldpath = real_infile X (infile db pkg (find_repo X pkg)) w /\
  newpath = outfile X fctx pkg /\
  exists fd tail,
    evs = Message (downloading pkg) :: Sys_link oldpath newpath (-1) ::
          Sys_creat (outfile X fctx pkg) fd :: tail.
Proof.
  intros Hrun Hs Hin Hr0.
  destruct (has_flag (flags fctx) FETCH_STDOUT) eqn:Hout.
  { destruct (fetch_package_stdout_events _ _ _ _ _ _ _ Hout Hrun Hs _ Hin). }
  destruct (fetch_package_file_run X _ _ _ _ _ _ Hout Hrun)
    as [(_ & _ & ->)|(_ & [(_ & _ & ->)|(_ & [(_ & _ & ->)|(_ & [(_ & Hs' & _)|
         (lk & w1 & Hlk & Hs1 & Hfs & Hfds & Hcr & Hino1)])])])].
  - rewrite (since_inj _ _ _ _ Hs (since_refl _)) in Hin. by which_event Hin.
  - rewrite (since_inj _ _ _ _ Hs (since_cons _ _ _ _ (since_emit _ _))) in Hin.
    by which_event Hin.
  - rewrite (since_inj _ _ _ _ Hs (since_emit _ _)) in Hin. by which_event Hin.
  - rewrite (since_inj _ _ _ _ Hs Hs') in Hin. which_event Hin. by simplify_eq.
  - assert (exists evs1, since w1 w' evs1) as [evs1 Hs2].
    { destruct (fetch_create_run X _ _ _ _ _ _ _ Hcr)
        as [(_ & ? & _)|(? & ? & ? & ? & _ & _ & _ & _ & _ & _ & _ & ?)]; eauto. }
    destruct (fetch_create_head _ _ _ _ _ _ _ _ Hcr Hs2) as (fd & tail & -> & Hno).
    rewrite (since_inj _ _ _ _ Hs (since_trans _ _ _ _ _ Hs1 Hs2)) in Hin |- *.
    simpl in Hin. which_event Hin; [|by destruct (Hno _ _ _ Hin)].
    destruct Hlk as [->| ->]; which_event Hin. simplify_eq.
    repeat split. by exists fd, tail.
Qed.

End Fetch_package_more.

(** ** Further properties of fetch_main *)

Lemma states_write_fd fd n w : w_states (write_fd fd n w) = w_states w.
Proof. unfold write_fd. by repeat case_match. Qed.

Lemma next_state_write_fd fd n w : w_next_state (write_fd fd n w) = w_next_state w.
Proof. unfold write_fd. by repeat case_match. Qed.

Section Fetch_main_more.

Variable X : extern.

Lemma sessions_link a b w : sessions (snd (link X a b w)) = sessions w.
Proof. unfold link. by repeat case_match. Qed.

Lemma sessions_creat path w : sessions (snd (creat X path w)) = sessions w.
Proof. unfold creat. by repeat case_match. Qed.

Lemma sessions_unlink path w : sessions (snd (unlink X path w)) = sessions w.
Proof. unfold unlink. destruct (w_fs w !! path); [destruct (_ =? 0)|]; reflexivity. Qed.

Lemma sessions_fetch_to fctx db pkg i fd w :
  sessions (snd (fetch_to X fctx db pkg i fd w)) = sessions w.
Proof.
  unfold fetch_to, istream_from_url, fetch_stream, istream_splice.
  destruct (apk_istream_from_url X _) as [ist|]; [|done].
  destruct (negb _).
  - match goal with
    | |- context [unlink X ?p ?w0] =>
        pose proof (sessions_unlink p w0) as Hu; destruct (unlink X p w0) as [u w2]
    end.
    simpl in Hu |- *. rewrite Hu.
    destruct (fd =? STDOUT_FILENO); unfold sessions; simpl;
      by rewrite states_write_fd, next_state_write_fd.
  - destruct (fd =? STDOUT_FILENO); unfold sessions; simpl;
      by rewrite states_write_fd, next_state_write_fd.
Qed.

Lemma sessions_fetch_create fctx db pkg i w :
  sessions (snd (fetch_create X fctx db pkg i w)) = sessions w.
Proof.
  unfold fetch_create.
  pose proof (sessions_creat (outfile X fctx pkg) w) as Hc.
  destruct (creat X (outfile X fctx pkg) w) as [[fd errno] w1]. simpl in Hc.
  destruct (fd <? 0); [done|]. by rewrite sessions_fetch_to.
Qed.

(** [fetch_package] leaves the resolution sessions alone. *)
Lemma sessions_fetch_package fctx db pkg w :
  sessions (snd (fetch_package X fctx db pkg w)) = sessions w.
Proof.
  unfold fetch_package.
  destruct (already_fetched X fctx pkg w); [done|].
  destruct (APK_MAX_REPOS X <=? find_repo X pkg)%nat; [done|].
  destruct (has_flag (apk_flags X) (APK_SIMULATE X)); [done|].
  destruct (has_flag (flags fctx) FETCH_STDOUT); [by rewrite sessions_fetch_to|].
  destruct (_ && _)%bool; [|by rewrite sessions_fetch_create].
  pose proof (sessions_link (real_infile X (infile db pkg (find_repo X pkg))
                               (apk_message (downloading pkg) w))
                (outfile X fctx pkg) (apk_message (downloading pkg) w)) as Hl.
  destruct (link X _ _ _) as [r1 w1]. simpl in Hl.
  destruct (r1 =? 0); [done|]. by rewrite sessions_fetch_create.
Qed.

Lemma sessions_call_fetch_package fctx db pkg w :
  sessions (snd (call_fetch_package X fctx db pkg w)) = sessions w.
Proof. unfold call_fetch_package. by rewrite sessions_fetch_package. Qed.

Lemma sessions_fetch_changes fctx db changes r w :
  match fetch_changes X fctx db changes r w with
  | Continue _ w' | Leave _ w' => sessions w' = sessions w
  | Fault => False
  end.
Proof.
  revert r w. induction changes as [|c changes IH]; intros r w; simpl; [done|].
  pose proof (sessions_call_fetch_package fctx db (newpkg c) w) as Hc.
  destruct (call_fetch_package X fctx db (newpkg c) w) as [r1 w1]. simpl in Hc.
  destruct (negb (r1 =? 0)); [done|].
  specialize (IH r1 w1). destruct (fetch_changes X fctx db changes r1 w1);
    try done; congruence.
Qed.


Lemma fetch_package_events fctx db pkg w r w' :
  fetch_package X fctx db pkg w = (r, w') ->
  exists evs, since w w' evs /\ Forall package_event evs.
Proof.
  intros Hrun. apply fetch_package_ending in Hrun as (evs & Hs & Hend).
  exists evs. split; [done|]. apply Forall_forall. intros e He.
  destruct Hend; which_event He; subst; try done;
    first [ eapply preparing_in in He; [|done]
          | eapply closing_in in He; [|done] ]; by destruct e.
Qed.

Lemma package_event_inner evs : Forall package_event evs -> Forall inner evs.
Proof. intros H. eapply Forall_impl; [exact H|]. by intros []. Qed.

Lemma package_event_calls evs : Forall package_event evs -> calls evs = [].
Proof. induction 1 as [|e evs He _ IH]; [done|]. by destruct e. Qed.

(** What a call from [fetch_main] adds to the trace. *)
Lemma call_fetch_package_events fctx db pkg w r w' :
  call_fetch_package X fctx db pkg w = (r, w') ->
  exists evs, since w w' (Call_fetch_package pkg :: evs) /\ Forall package_event evs.
Proof.
  unfold call_fetch_package. intros (evs & Hs & Hev)%fetch_package_events.
  exists evs. split; [by apply since_cons|done].
Qed.

(** Neither a session nor the database is touched while the change list
    is fetched. *)
Lemma fetch_changes_events fctx db changes r w :
  match fetch_changes X fctx db changes r w with
  | Continue _ w' | Leave _ w' =>
      exists evs, since w w' evs /\
        Forall (fun e => package_event e \/ exists pkg, e = Call_fetch_package pkg) evs
  | Fault => False
  end.
Proof.
  revert r w. induction changes as [|c changes IH]; intros r w; simpl.
  { exists []. split; [apply since_refl|constructor]. }
  destruct (call_fetch_package X fctx db (newpkg c) w) as [r1 w1] eqn:Hc.
  apply call_fetch_package_events in Hc as (evs1 & Hs1 & Hev1).
  assert (Hall1 : Forall (fun e => package_event e \/ exists pkg, e = Call_fetch_package pkg)
                    (Call_fetch_package (newpkg c) :: evs1)).
  { constructor; [right; by eexists|]. eapply Forall_impl; [exact Hev1|]. by left. }
  destruct (negb (r1 =? 0)); [by eexists|].
  specialize (IH r1 w1). destruct (fetch_changes X fctx db changes r1 w1);
    try done; destruct IH as (evs2 & Hs2 & Hev2);
    (eexists; split; [by eapply since_trans|by apply Forall_app]).
Qed.


Lemma select_pkg_some items cur :
  exists pkg, select_pkg X items (Some cur) = Some pkg /\ (pkg = cur \/ pkg ∈ items).
Proof.
  revert cur. induction items as [|item items IH]; intros cur; simpl.
  { exists cur. by split; [|left]. }
  destruct (_ =? _).
  - destruct (IH item) as (pkg & -> & [->|Hin]); eexists; (split; [done|]);
      right; [apply list_elem_of_here|by apply list_elem_of_further].
  - destruct (IH cur) as (pkg & -> & [->|Hin]); eexists; (split; [done|]);
      [by left|right; by apply list_elem_of_further].
Qed.

(** The selection made from a non-empty array is one of its items. *)
Lemma select_pkg_in item items :
  exists pkg, select_pkg X (item :: items) None = Some pkg /\ pkg ∈ item :: items.
Proof.
  simpl. destruct (select_pkg_some items item) as (pkg & -> & [->|Hin]);
    (eexists; split; [done|]); [apply list_elem_of_here|by apply list_elem_of_further].
Qed.

(** X15.  The selection loop ends with one of the variants of the array,
    and with [NULL] only for an array without items. *)
Theorem select_pkg_member items :
  match select_pkg X items None with
  | Some pkg => pkg ∈ items
  | None => items = []
  end.
Proof.
  destruct items as [|item items]; [done|].
  destruct (select_pkg_in item items) as (pkg & Hsel & Hin).
  by rewrite Hsel.
Qed.

(** How the body of the loop can end for one argument. *)
Lemma fetch_arg_flow fctx db arg w :
  match fetch_arg X fctx db arg w with
  | Continue r w' =>
      r = 0 /\ (exists evs, since w w' evs /\ Forall inner evs) /\
      w_states w' ⊆ w_states w
  | Leave r w' =>
      r <> 0 /\ (exists evs, since w w' evs /\ Forall inner evs)
  | Fault =>
      has_flag (flags fctx) FETCH_RECURSIVE = false /\
      name_pkgs (apk_db_get_name db arg) = Some []
  end.
Proof.
  unfold fetch_arg. cbn [dep_name name_name].
  destruct (has_flag (flags fctx) FETCH_RECURSIVE) eqn:Hrec.
  - unfold apk_state_new. destruct (apk_state_lock_dependency X db _) as [r changes].
    cbn [state_id change_list].
    set (w1 := emit (State_new (w_next_state w)) _).
    assert (Hs1 : since w w1 [State_new (w_next_state w)]) by reflexivity.
    destruct (Z.eqb_spec r 0) as [->|Hr]; simpl.
    + pose proof (fetch_changes_events fctx db changes 0 w1) as Hev.
      pose proof (sessions_fetch_changes fctx db changes 0 w1) as Hse.
      destruct (fetch_changes_run X fctx db changes 0 w1)
        as [(w' & _ & Heq)|(? & ? & ? & ? & r & w' & _ & _ & _ & Hr & Heq)];
        rewrite Heq in *; destruct Hev as (evs & Hs & Hall).
      * split; [by destruct changes|]. split.
        -- exists ([State_new (w_next_state w)] ++ evs ++ [State_unref (w_next_state w)]).
           split.
           ++ eapply since_trans; [exact Hs1|].
              eapply since_trans; [exact Hs|]. reflexivity.
           ++ apply Forall_app. split; [by repeat constructor|].
              apply Forall_app. split; [|by repeat constructor].
              eapply Forall_impl; [exact Hall|]. intros e [He|[pkg ->] ]; [by destruct e|done].
        -- simpl. injection Hse as -> _. simpl.
           intros id [Hid Hnot]%elem_of_difference.
           apply elem_of_union in Hid as [Hid|Hid]; done.
      * split; [done|]. exists ([State_new (w_next_state w)] ++ evs).
        split; [by eapply since_trans|]. apply Forall_app. split; [by repeat constructor|].
        eapply Forall_impl; [exact Hall|]. intros e [He|[pkg ->] ]; [by destruct e|done].
    + split; [done|]. eexists [_; _; _].
      split; [unfold since; simpl; by rewrite <- !app_assoc|by repeat constructor].
  - destruct (name_pkgs (apk_db_get_name db arg)) as [items|] eqn:Hitems.
    + destruct items as [|item items]; [done|].
      destruct (select_pkg_in item items) as (pkg & Hsel & Hmem). rewrite Hsel.
      pose proof (sessions_call_fetch_package fctx db pkg w) as Hse.
      destruct (call_fetch_package X fctx db pkg w) as [r w'] eqn:Hc.
      apply call_fetch_package_events in Hc as (evs & Hs & Hev).
      assert (Hin : Forall inner (Call_fetch_package pkg :: evs))
        by (constructor; [done|by apply package_event_inner]).
      destruct (Z.eqb_spec r 0) as [->|Hr]; simpl.
      * split; [done|]. split; [by eexists|]. simpl in Hse. by injection Hse as -> _.
      * split; [done|]. by eexists.
    + split; [done|]. eexists [_]. split; [reflexivity|by repeat constructor].
Qed.


(** How the loop over the arguments can end. *)
Lemma fetch_args_flow fctx db argv w :
  match fetch_args X fctx db argv 0 w with
  | Continue r w' =>
      r = 0 /\ (exists evs, since w w' evs /\ Forall inner evs) /\
      w_states w' ⊆ w_states w
  | Leave r w' =>
      r <> 0 /\ (exists evs, since w w' evs /\ Forall inner evs) /\
      exists before arg after w1,
        argv = before ++ arg :: after /\
        fetch_args X fctx db before 0 w = Continue 0 w1 /\
        fetch_arg X fctx db arg w1 = Leave r w'
  | Fault =>
      has_flag (flags fctx) FETCH_RECURSIVE = false /\
      exists arg, arg ∈ argv /\ name_pkgs (apk_db_get_name db arg) = Some []
  end.
Proof.
  revert w. induction argv as [|arg argv IH]; intros w; simpl.
  { split; [done|]. split; [|done]. exists []. split; [apply since_refl|constructor]. }
  pose proof (fetch_arg_flow fctx db arg w) as Harg.
  destruct (fetch_arg X fctx db arg w) as [r w1|r w1|] eqn:Hfa.
  - destruct Harg as (-> & (evs1 & Hs1 & Hin1) & Hsub1).
    specialize (IH w1). destruct (fetch_args X fctx db argv 0 w1) as [r w2|r w2|] eqn:Hrest.
    + destruct IH as (-> & (evs2 & Hs2 & Hin2) & Hsub2).
      split; [done|]. split; [|by etrans].
      exists (evs1 ++ evs2). split; [by eapply since_trans|by apply Forall_app].
    + destruct IH as (Hr & (evs2 & Hs2 & Hin2) & before & a & after & w3 & -> & Hb & Ha).
      split; [done|]. split.
      * exists (evs1 ++ evs2). split; [by eapply since_trans|by apply Forall_app].
      * exists (arg :: before), a, after, w3. split; [done|]. simpl. by rewrite Hfa.
    + destruct IH as (Hrec & a & Ha & Hnull). split; [done|].
      exists a. split; [by apply list_elem_of_further|done].
  - destruct Harg as (Hr & Hev). split; [done|]. split; [done|].
    exists [], arg, argv, w. by repeat split.
  - destruct Harg as (Hrec & Hnull). split; [done|].
    exists arg. split; [apply list_elem_of_here|done].
Qed.

(** X16.  With the database open, [fetch_main] returns 0 exactly when the
    loop ran through every argument; otherwise it returns the non-zero
    value with which the first failing argument left the loop, and the
    arguments after that one are not processed. *)
Theorem fetch_main_first_failure fctx db argv w r w' :
  apk_db_open X = (0, db) ->
  fetch_main X fctx argv w = Some (r, w') ->
  (r = 0 /\
   exists w1,
     fetch_args X fctx db argv 0 (emit (Db_open 0) w) = Continue 0 w1 /\
     w' = apk_db_close w1)
  \/
  (r <> 0 /\
   exists before arg after w1 w2,
     argv = before ++ arg :: after /\
     fetch_args X fctx db before 0 (emit (Db_open 0) w) = Continue 0 w1 /\
     fetch_arg X fctx db arg w1 = Leave r w2 /\
     w' = apk_db_close w2).
Proof.
  intros Hopen. unfold fetch_main. rewrite Hopen. simpl.
  pose proof (fetch_args_flow fctx db argv (emit (Db_open 0) w)) as Hflow.
  destruct (fetch_args X fctx db argv 0 (emit (Db_open 0) w)) as [r1 w1|r1 w1|];
    intros [= <- <-].
  - destruct Hflow as (-> & _). left. split; [done|]. by exists w1.
  - destruct Hflow as (Hr & _ & before & arg & after & w2 & -> & Hb & Ha). right.
    split; [done|]. by exists before, arg, after, w2, w1.
Qed.

(** X17.  When [fetch_main] returns 0, no resolution session is live that
    was not live before the call. *)
Theorem fetch_main_success_releases_sessions fctx argv w w' :
  fetch_main X fctx argv w = Some (0, w') ->
  w_states w' ⊆ w_states w.
Proof.
  unfold fetch_main. destruct (apk_db_open X) as [r0 db].
  destruct (Z.eqb_spec r0 0) as [->|Hr0]; simpl; [|intros [= -> _]; done].
  pose proof (fetch_args_flow fctx db argv (emit (Db_open 0) w)) as Hflow.
  destruct (fetch_args X fctx db argv 0 (emit (Db_open 0) w)) as [r1 w1|r1 w1|];
    intros [= -> <-].
  - by destruct Hflow as (_ & _ & Hsub).
  - by destruct Hflow as (Hr & _).
Qed.

(** X18.  When [apk_db_open] fails [fetch_main] returns its value and does
    nothing else; otherwise, on every path that returns, the database is
    closed exactly once, as the last thing [fetch_main] does. *)
Theorem fetch_main_closes_database fctx argv w r w' evs :
  fetch_main X fctx argv w = Some (r, w') ->
  since w w' evs ->
  (fst (apk_db_open X) <> 0 /\ r = fst (apk_db_open X) /\ evs = [Db_open r])
  \/
  (fst (apk_db_open X) = 0 /\
   exists mid, evs = Db_open 0 :: mid ++ [Db_close] /\ Forall inner mid).
Proof.
  unfold fetch_main. destruct (apk_db_open X) as [r0 db]. simpl.
  destruct (Z.eqb_spec r0 0) as [->|Hr0]; simpl.
  - pose proof (fetch_args_flow fctx db argv (emit (Db_open 0) w)) as Hflow.
    destruct (fetch_args X fctx db argv 0 (emit (Db_open 0) w)) as [r1 w1|r1 w1|];
      intros [= <- <-] Hs; right; (split; [done|]);
      [destruct Hflow as (_ & (mid & Hm & Hin) & _)|destruct Hflow as (_ & (mid & Hm & Hin) & _)];
      exists mid; (split; [|done]);
      apply (since_inj _ _ _ _ Hs);
      apply since_cons; exact (since_trans _ _ _ _ _ Hm (since_emit _ _)).
  - intros [= <- <-] Hs. left. split; [done|]. split; [done|].
    exact (since_inj _ _ _ _ Hs (since_emit _ _)).
Qed.

(** X19.  [fetch_main] returns a value in recursive mode, and in
    non-recursive mode unless the [pkgs] array of an argument's name is
    there but has no items (the one case in which [fetch_package] would be
    handed [NULL]). *)
Theorem fetch_main_returns fctx argv w :
  (has_flag (flags fctx) FETCH_RECURSIVE = true \/
   forall arg, arg ∈ argv ->
     name_pkgs (apk_db_get_name (snd (apk_db_open X)) arg) <> Some []) ->
  exists r w', fetch_main X fctx argv w = Some (r, w').
Proof.
  intros Hok. unfold fetch_main. destruct (apk_db_open X) as [r0 db]. simpl in *.
  destruct (Z.eqb_spec r0 0) as [->|Hr0]; simpl; [|by eexists _, _].
  pose proof (fetch_args_flow fctx db argv (emit (Db_open 0) w)) as Hflow.
  destruct (fetch_args X fctx db argv 0 (emit (Db_open 0) w)) as [r1 w1|r1 w1|];
    [by eexists _, _..|].
  destruct Hflow as (Hrec & arg & Hin & Hnull).
  destruct Hok as [Hrec'|Hok]; [congruence|]. by destruct (Hok arg Hin).
Qed.

(** X20.  In recursive mode, when the closure of an argument cannot be
    locked, the session is released, "Unable to install" is reported for
    the name, the database is closed and [fetch_main] returns the engine's
    value; [fetch_package] is not called and no entry and no file
    changes. *)
Theorem fetch_main_lock_failure fctx db before arg after w r1 w1 r changes :
  has_flag (flags fctx) FETCH_RECURSIVE = true ->
  apk_db_open X = (0, db) ->
  fetch_args X fctx db before 0 (emit (Db_open 0) w) = Continue r1 w1 ->
  apk_state_lock_dependency X db
    {| dep_name := apk_db_get_name db arg;
       result_mask := APK_DEPMASK_REQUIRE X |} = (r, changes) ->
  r <> 0 ->
  exists w',
    fetch_main X fctx (before ++ arg :: after) w = Some (r, w') /\
    since w1 w'
      [State_new (w_next_state w1); State_unref (w_next_state w1);
       Error ("Unable to install '" +:+ name_name (apk_db_get_name db arg) +:+ "'");
       Db_close] /\
    w_states w' ⊆ w_states w1 /\
    w_fs w' = w_fs w1 /\ w_inodes w' = w_inodes w1.
Proof.
  intros Hrec Hopen Hbefore Hlock Hr.
  assert (Harg : fetch_arg X fctx db arg w1 =
            Leave r (apk_error ("Unable to install '" +:+
                                name_name (apk_db_get_name db arg) +:+ "'")
                       (apk_state_unref
                          {| state_id := w_next_state w1; change_list := changes |}
                          (snd (apk_state_new db w1))))).
  { unfold fetch_arg. rewrite Hrec. simpl. rewrite Hlock.
    by destruct (Z.eqb_spec r 0). }
  eexists. split; [|split; [|split] ].
  - unfold fetch_main. rewrite Hopen. simpl.
    rewrite (fetch_args_app X _ _ _ _ _ _ _ _ Hbefore). simpl. by rewrite Harg.
  - unfold since. simpl. by rewrite <- !app_assoc.
  - simpl. intros id [Hid Hnot]%elem_of_difference.
    apply elem_of_union in Hid as [Hid|Hid]; done.
  - done.
Qed.

(** X21.  In non-recursive mode a name whose [pkgs] is [NULL] ends the run:
    "Unable to get" is printed as a message (not as an error), the
    database is closed and [fetch_main] returns -1 without looking at the
    arguments after it. *)
Theorem fetch_main_no_variants fctx db before arg after w r1 w1 :
  has_flag (flags fctx) FETCH_RECURSIVE = false ->
  apk_db_open X = (0, db) ->
  fetch_args X fctx db before 0 (emit (Db_open 0) w) = Continue r1 w1 ->
  name_pkgs (apk_db_get_name db arg) = None ->
  fetch_main X fctx (before ++ arg :: after) w =
    Some (-1, apk_db_close
                (apk_message ("Unable to get '" +:+
                              name_name (apk_db_get_name db arg) +:+ "'") w1)).
Proof.
  intros Hrec Hopen Hbefore Hnull.
  unfold fetch_main. rewrite Hopen. simpl.
  rewrite (fetch_args_app X _ _ _ _ _ _ _ _ Hbefore). simpl.
  unfold fetch_arg. rewrite Hrec. cbn [dep_name]. by rewrite Hnull.
Qed.

Lemma fetch_args_since fctx db argv r0 w w' :
  flow_world (fetch_args X fctx db argv r0 w) = Some w' ->
  exists evs, since w w' evs.
Proof.
  revert r0 w. induction argv as [|arg argv IH]; intros r0 w; simpl.
  { intros [= <-]. exists []. apply since_refl. }
  pose proof (fetch_arg_flow fctx db arg w) as Harg.
  destruct (fetch_arg X fctx db arg w) as [r1 w1|r1 w1|]; [| |done].
  - destruct Harg as (_ & (evs1 & Hs1 & _) & _).
    intros (evs2 & Hs2)%IH. eexists. by eapply since_trans.
  - destruct Harg as (_ & (evs1 & Hs1 & _)). intros [= <-]. by eexists.
Qed.

Lemma fetch_arg_non_recursive fctx db arg w w' :
  has_flag (flags fctx) FETCH_RECURSIVE = false ->
  flow_world (fetch_arg X fctx db arg w) = Some w' ->
  exists evs,
    since w w' evs /\ sessions w' = sessions w /\
    (calls evs = [] \/
     exists items pkg,
       name_pkgs (apk_db_get_name db arg) = Some items /\ pkg ∈ items /\
       calls evs = [pkg]).
Proof.
  intros Hrec. unfold fetch_arg. rewrite Hrec. cbn [dep_name].
  destruct (name_pkgs (apk_db_get_name db arg)) as [items|] eqn:Hitems.
  - destruct items as [|item items]; [done|].
    destruct (select_pkg_in item items) as (pkg & Hsel & Hmem). rewrite Hsel.
    pose proof (sessions_call_fetch_package fctx db pkg w) as Hse.
    destruct (call_fetch_package X fctx db pkg w) as [r w1] eqn:Hc.
    apply call_fetch_package_events in Hc as (evs & Hs & Hev).
    intros Hw. assert (w1 = w') as -> by (destruct (negb (r =? 0)); by injection Hw).
    exists (Call_fetch_package pkg :: evs). split; [done|]. split; [done|].
    right. exists (item :: items), pkg. repeat split; try done.
    simpl. by rewrite package_event_calls.
  - intros [= <-]. eexists [_]. split; [reflexivity|]. split; [done|]. by left.
Qed.

(** X22.  In non-recursive mode [fetch_package] is called at most once
    per argument, each time on a variant of an argument's name, and no
    resolution session is created or released. *)
Theorem fetch_args_non_recursive fctx db argv r0 w w' evs :
  has_flag (flags fctx) FETCH_RECURSIVE = false ->
  flow_world (fetch_args X fctx db argv r0 w) = Some w' ->
  since w w' evs ->
  (length (calls evs) <= length argv)%nat /\
  (forall pkg, pkg ∈ calls evs ->
     exists arg items,
       arg ∈ argv /\ name_pkgs (apk_db_get_name db arg) = Some items /\
       pkg ∈ items) /\
  sessions w' = sessions w.
Proof.
  intros Hrec. revert r0 w evs.
  induction argv as [|arg argv IH]; intros r0 w evs; simpl.
  - intros [= <-] Hs. rewrite (since_inj _ _ _ _ Hs (since_refl _)). simpl.
    split; [done|]. split; [|done]. intros pkg Hin. by apply elem_of_nil in Hin.
  - pose proof (fetch_arg_non_recursive fctx db arg w) as Harg.
    destruct (fetch_arg X fctx db arg w) as [r1 w1|r1 w1|]; [| |done].
    + destruct (Harg w1 Hrec eq_refl) as (evs1 & Hs1 & Hse1 & Hc1).
      intros Hw Hs.
      destruct (fetch_args_since _ _ _ _ _ _ Hw) as [evs2 Hs2].
      destruct (IH r1 w1 evs2 Hw Hs2) as (Hlen & Hmem & Hse2).
      rewrite (since_inj _ _ _ _ Hs (since_trans _ _ _ _ _ Hs1 Hs2)).
      rewrite calls_app, length_app.
      split; [|split; [|congruence] ].
      * destruct Hc1 as [->|(? & ? & _ & _ & ->)]; simpl; lia.
      * intros pkg [Hin|Hin]%elem_of_app.
        -- destruct Hc1 as [Hc1|(items & p & Hit & Hp & Hc1)]; rewrite Hc1 in Hin.
           ++ by apply elem_of_nil in Hin.
           ++ apply list_elem_of_singleton in Hin as ->.
              exists arg, items. split; [apply list_elem_of_here|done].
        -- destruct (Hmem pkg Hin) as (a & items & Ha & Hit & Hp).
           exists a, items. split; [by apply list_elem_of_further|done].
    + intros [= <-] Hs. destruct (Harg w1 Hrec eq_refl) as (evs1 & Hs1 & Hse1 & Hc1).
      rewrite (since_inj _ _ _ _ Hs Hs1).
      split; [|split; [|done] ].
      * destruct Hc1 as [->|(? & ? & _ & _ & ->)]; simpl; lia.
      * intros pkg Hin. destruct Hc1 as [Hc1|(items & p & Hit & Hp & Hc1)]; rewrite Hc1 in Hin.
        -- by apply elem_of_nil in Hin.
        -- apply list_elem_of_singleton in Hin as ->.
           exists arg, items. split; [apply list_elem_of_here|done].
Qed.

End Fetch_main_more.

(** ** The repository bits and the path buffers *)

Lemma has_flag_BIT m j : has_flag m (BIT j) = Z.testbit m (Z.of_nat j).
Proof.
  unfold BIT. rewrite Z.shiftl_1_l. apply has_flag_pow2. lia.
Qed.

Lemma repo_scan_ext m1 m2 left i :
  (forall j, (i <= j < i + left)%nat ->
     Z.testbit m1 (Z.of_nat j) = Z.testbit m2 (Z.of_nat j)) ->
  repo_scan m1 left i = repo_scan m2 left i.
Proof.
  revert i. induction left as [|left IH]; intros i Hbits; simpl; [done|].
  rewrite !has_flag_BIT, (Hbits i) by lia.
  destruct (Z.testbit m2 (Z.of_nat i)); [done|]. apply IH. intros j Hj. apply Hbits. lia.
Qed.

(** X23.  The repository chosen depends only on the membership bits of
    the slots below [APK_MAX_REPOS]; bits beyond them are ignored. *)
Theorem find_repo_low_bits (X : extern) pkg1 pkg2 :
  (forall j, (j < APK_MAX_REPOS X)%nat ->
     Z.testbit (pkg_repos pkg1) (Z.of_nat j) = Z.testbit (pkg_repos pkg2) (Z.of_nat j)) ->
  find_repo X pkg1 = find_repo X pkg2.
Proof.
  intros Hbits. unfold find_repo. apply repo_scan_ext. intros j Hj. apply Hbits. lia.
Qed.

Lemma substring_prefix m text :
  (String.length (String.substring 0 m text) <= m)%nat /\
  exists rest, text = String.substring 0 m text +:+ rest.
Proof.
  revert m. induction text as [|c text IH]; intros m.
  - destruct m; simpl; (split; [lia|by exists ""]).
  - destruct m as [|m]; simpl.
    + split; [lia|]. by eexists.
    + destruct (IH m) as (Hlen & rest & Hrest). split; [lia|].
      exists rest.
      change (String c text = String c (String.substring 0 m text +:+ rest)).
      by rewrite <- Hrest.
Qed.

(** X24.  Both paths are cut to the buffers: with stdout mode off,
    [outfile] has at most 255 bytes and is a prefix of
    "<outdir>/<name>-<version>.apk", and so is [infile] of
    "<url>/<name>-<version>.apk". *)
Theorem path_buffers_bounded (X : extern) fctx db pkg i :
  has_flag (flags fctx) FETCH_STDOUT = false ->
  (String.length (outfile X fctx pkg) <= 255)%nat /\
  (exists rest,
     apk_path (match outdir fctx with Some d => d | None => "." end) pkg =
       outfile X fctx pkg +:+ rest) /\
  (String.length (infile db pkg i) <= 255)%nat /\
  (exists rest,
     apk_path (url (db_repos db i)) pkg = infile db pkg i +:+ rest).
Proof.
  intros Hout. unfold outfile, infile, snprintf. rewrite Hout. simpl.
  split; [apply substring_prefix|]. split; [apply substring_prefix|].
  split; apply substring_prefix.
Qed.

(** ** The further properties on concrete runs *)

Import Cases.

(** X1 on the letter L. *)
Lemma fetch_parse_sets_mode_witness :
  exists ctx',
    fetch_parse into_cwd (chr "L") 0 None = (0, ctx') /\
    outdir ctx' = outdir into_cwd /\
    has_flag (flags ctx') FETCH_LINK = true /\
    (forall m, mode_bit m -> m <> FETCH_LINK ->
       has_flag (flags ctx') m = has_flag (flags into_cwd) m) /\
    (0 <= flags into_cwd < 2 ^ 32 -> 0 <= flags ctx' < 2 ^ 32).
Proof.
  apply (fetch_parse_sets_mode into_cwd (chr "L") 0 None FETCH_LINK).
  right. right. split; reflexivity.
Defined.

(** X2 on the letters R and s. *)
Lemma fetch_parse_order_witness :
  let after c optch i arg := snd (fetch_parse c optch i arg) in
  after (after into_cwd (chr "R") 0 None) (chr "s") 1 (Some "/tmp") =
    after (after into_cwd (chr "s") 1 (Some "/tmp")) (chr "R") 0 None /\
  after (after into_cwd (chr "R") 0 None) (chr "R") 1 (Some "/tmp") =
    after into_cwd (chr "R") 0 None /\
  after (after into_cwd (chr "R") 0 None) (chr "o") 1 (Some "/tmp") =
    after (after into_cwd (chr "o") 1 (Some "/tmp")) (chr "R") 0 None /\
  outdir (after (after into_cwd (chr "o") 0 None) (chr "o") 1 (Some "/tmp"))
    = Some "/tmp".
Proof.
  apply (fetch_parse_order into_cwd (chr "R") (chr "s")
           FETCH_RECURSIVE FETCH_STDOUT 0 1 None (Some "/tmp")).
  - left. split; reflexivity.
  - right. left. split; reflexivity.
Defined.

(** X3 on the option registered as "link". *)
Lemma fetch_options_parsed_witness :
  let o := {| opt_name := chr "l"; opt_long := "link";
              opt_help := "Create hard links if possible"; opt_arg := None |} in
  (fst (fetch_parse into_cwd (opt_name o) 0 None) = 0 <-> opt_long o <> "link") /\
  (opt_long o = "link" -> fetch_parse into_cwd (opt_name o) 0 None = (-1, into_cwd)) /\
  has_flag (flags (snd (fetch_parse into_cwd (opt_name o) 0 None))) FETCH_LINK
    = has_flag (flags into_cwd) FETCH_LINK.
Proof.
  intros o. apply (fetch_options_parsed into_cwd o 0 None).
  apply list_elem_of_In. vm_compute. tauto.
Defined.

(** X4 on a stream that ends after 5 of the 12 bytes. *)
Lemma fetch_package_reports_failure_witness :
  let X := host 0 (Some 5) idle in
  let run := fetch_package X into_cwd db pkg12 nothing in
  (fst run = 0 /\ forall text, Error text ∉ w_trace (snd run)) \/
  (fst run = -1 /\
   exists text before,
     w_trace (snd run) = before ++ [Error text] \/
     w_trace (snd run) =
       before ++ [Error text; Sys_unlink (outfile X into_cwd pkg12)]).
Proof.
  intros X run.
  apply (fetch_package_reports_failure X into_cwd db pkg12 nothing (fst run) (snd run)).
  - apply surjective_pairing.
  - reflexivity.
Defined.


(** X6 on the same run. *)
Lemma fetch_package_success_leaves_artifact_witness :
  let X := host 0 (Some 12) idle in
  lstat (outfile X into_cwd pkg12)
    (snd (fetch_package X into_cwd db pkg12 nothing)) = Some (pkg_size pkg12).
Proof.
  intros X.
  apply (fetch_package_success_leaves_artifact X into_cwd db pkg12 nothing).
  - reflexivity.
  - reflexivity.
  - reflexivity.
  - intros t. vm_compute. discriminate.
  - vm_compute. discriminate.
  - vm_compute. reflexivity.
Defined.

(** X7 on a fetch to standard output while the file is already there. *)
Lemma fetch_package_stdout_witness :
  let X := host 0 (Some 12) idle in
  let run := fetch_package X to_stdout db pkg12 present in
  (exists tail, w_trace (snd run) = Message (downloading pkg12) :: tail) /\
  (forall e, e ∈ w_trace (snd run) ->
     match e with
     | Sys_creat _ _ | Sys_link _ _ _ | Sys_close _ => False
     | Stream_splice _ fd _ _ => fd = STDOUT_FILENO
     | _ => True
     end) /\
  w_fds (snd run) = w_fds present.
Proof.
  intros X run.
  apply (fetch_package_stdout X to_stdout db pkg12 present (fst run) (snd run)).
  - reflexivity.
  - apply surjective_pairing.
  - reflexivity.
Defined.

(** X8 on a fetch to standard output that ends after 5 bytes. *)
Lemma fetch_package_stdout_short_unlinks_witness :
  let X := host 0 (Some 5) idle in
  let run := fetch_package X to_stdout db pkg12 nothing in
  fst run = -1 /\
  (exists before, w_trace (snd run) = before ++ [Sys_unlink (stack_outfile X)]) /\
  (forall q, q <> stack_outfile X -> w_fs (snd run) !! q = w_fs nothing !! q) /\
  (unlink_errno X (stack_outfile X) = 0 ->
   w_fs (snd run) !! stack_outfile X = None) /\
  (unlink_errno X (stack_outfile X) <> 0 -> w_fs (snd run) = w_fs nothing).
Proof.
  intros X run.
  apply (fetch_package_stdout_short_unlinks X to_stdout db pkg12 nothing
           (fst run) (snd run) (w_trace (snd run)) {| is_token := 0 |} 1 12 5).
  - reflexivity.
  - apply surjective_pairing.
  - reflexivity.
  - apply list_elem_of_In. vm_compute. tauto.
  - vm_compute. discriminate.
Defined.

(** X9 on a host that refuses [creat] with [EACCES]. *)
Lemma fetch_package_creat_failure_witness :
  let X := denying (host 0 (Some 12) idle) in
  let run := fetch_package X into_cwd db pkg12 nothing in
  fst run = -1 /\ "./hello-1.2.apk" = outfile X into_cwd pkg12 /\
  w_fs (snd run) = w_fs nothing /\ w_inodes (snd run) = w_inodes nothing /\
  w_fds (snd run) = w_fds nothing /\
  (exists errno,
     fst (creat X "./hello-1.2.apk" nothing) = (-1, errno) /\
     exists before,
       w_trace (snd run) =
         before ++ [Sys_creat "./hello-1.2.apk" (-1);
                    Error ("./hello-1.2.apk" +:+ ": " +:+ strerror X errno)]) /\
  (forall locator opened, Stream_open locator opened ∉ w_trace (snd run)).
Proof.
  intros X run.
  apply (fetch_package_creat_failure X into_cwd db pkg12 nothing (fst run) (snd run)).
  - apply surjective_pairing.
  - reflexivity.
  - apply list_elem_of_In. vm_compute. tauto.
  - lia.
Defined.

(** X10 on a stream that yields all 12 bytes, once with the standard
    descriptors open ([creat] returns 3), once with standard output
    closed ([creat] returns 1). *)
Lemma fetch_package_closes_descriptor_witness :
  let X := host 0 (Some 12) idle in
  let run := fetch_package X into_cwd db pkg12 nothing in
  let mute := fetch_package X into_cwd db pkg12 silenced in
  (Sys_close 3 ∈ w_trace (snd run) /\ w_fds (snd run) !! 3 = None /\
   w_fds (snd run) = w_fds nothing) /\
  ((forall fd', Sys_close fd' ∉ w_trace (snd mute)) /\
   exists p, follow MAXSYMLINKS (w_fs silenced) (outfile X into_cwd pkg12) = Some p /\
             w_fds (snd mute) = <[1 := p]> (w_fds silenced)).
Proof.
  intros X run mute. split.
  - destruct (fetch_package_closes_descriptor X into_cwd db pkg12 nothing
                (fst run) (snd run) (w_trace (snd run))
                "./hello-1.2.apk" 3 "http://mirror/hello-1.2.apk")
      as (_ & _ & Hclosed & _).
    + apply surjective_pairing.
    + reflexivity.
    + apply list_elem_of_In. vm_compute. tauto.
    + apply list_elem_of_In. vm_compute. tauto.
    + apply Hclosed. vm_compute. discriminate.
  - destruct (fetch_package_closes_descriptor X into_cwd db pkg12 silenced
                (fst mute) (snd mute) (w_trace (snd mute))
                "./hello-1.2.apk" 1 "http://mirror/hello-1.2.apk")
      as (_ & _ & _ & Hopen).
    + apply surjective_pairing.
    + reflexivity.
    + apply list_elem_of_In. vm_compute. tauto.
    + apply list_elem_of_In. vm_compute. tauto.
    + apply Hopen. reflexivity.
Defined.

(** X11 on a stream that cannot be opened. *)
Lemma fetch_package_open_failure_witness :
  let X := host 0 None idle in
  let run := fetch_package X into_cwd db pkg12 nothing in
  fst run = -1 /\
  (exists p ino,
     follow MAXSYMLINKS (w_fs nothing) (outfile X into_cwd pkg12) = Some p /\
     w_fs (snd run) = <[p := File ino]> (w_fs nothing) /\
     w_inodes (snd run) = <[ino := 0]> (w_inodes nothing) /\
     lstat p (snd run) = Some 0 /\
     w_fds (snd run) = <[3 := p]> (w_fds nothing)) /\
  (forall fd', Sys_close fd' ∉ w_trace (snd run)) /\
  (forall p', Sys_unlink p' ∉ w_trace (snd run)).
Proof.
  intros X run.
  apply (fetch_package_open_failure X into_cwd db pkg12 nothing (fst run) (snd run)
           (w_trace (snd run)) "./hello-1.2.apk" 3 "http://mirror/hello-1.2.apk").
  - apply surjective_pairing.
  - reflexivity.
  - apply list_elem_of_In. vm_compute. tauto.
  - apply list_elem_of_In. vm_compute. tauto.
Defined.


(** The file the output path leads to changes under all its names.  The
    7 bytes of the pool were linked to the output path; the package
    declares 12, so a second fetch does [creat] on the output path, which
    empties the one file, and the pool is left empty too. *)
Example fetch_package_writes_through_hard_link :
  let X := host 0 (Some 0) idle in
  let first := fetch_package X linking db local12 cut_short in
  let second := fetch_package X linking db local12 (snd first) in
  lstat "/srv/pool/hello-1.2.apk" (snd first) = Some 7 /\
  lstat "./hello-1.2.apk" (snd first) = Some 7 /\
  fst second = -1 /\
  lstat "./hello-1.2.apk" (snd second) = None /\
  lstat "/srv/pool/hello-1.2.apk" (snd second) = Some 0.
Proof. vm_compute. repeat split. Qed.

(** X13 on the artifact hard-linked from the pool. *)
Lemma fetch_package_link_result_witness :
  let X := host 0 (Some 12) idle in
  let run := fetch_package X linking db local12 mirror in
  w_fs mirror !! "./hello-1.2.apk" = None /\
  (exists nd,
     w_fs mirror !! "/srv/pool/hello-1.2.apk" = Some nd /\
     w_fs (snd run) = <["./hello-1.2.apk" := nd]> (w_fs mirror)) /\
  lstat "./hello-1.2.apk" (snd run) = lstat "/srv/pool/hello-1.2.apk" mirror /\
  w_fds (snd run) = w_fds mirror /\ w_inodes (snd run) = w_inodes mirror.
Proof.
  intros X run.
  apply (fetch_package_link_result X linking db local12 mirror (fst run) (snd run)
           (w_trace (snd run))).
  - apply surjective_pairing.
  - reflexivity.
  - apply list_elem_of_In. vm_compute. tauto.
Defined.

(** X14 on a local repository that lacks the artifact. *)
Lemma fetch_package_link_failure_falls_through_witness :
  let X := host 0 (Some 12) idle in
  let run := fetch_package X linking db local12 nothing in
  "" = real_infile X (infile db local12 (find_repo X local12)) nothing /\
  "./hello-1.2.apk" = outfile X linking local12 /\
  exists fd tail,
    w_trace (snd run) =
      Message (downloading local12) :: Sys_link "" "./hello-1.2.apk" (-1) ::
      Sys_creat (outfile X linking local12) fd :: tail.
Proof.
  intros X run.
  apply (fetch_package_link_failure_falls_through X linking db local12 nothing
           (fst run) (snd run) (w_trace (snd run)) "" "./hello-1.2.apk" (-1)).
  - apply surjective_pairing.
  - reflexivity.
  - apply list_elem_of_In. vm_compute. tauto.
  - lia.
Defined.

(** X16 on the closure whose second package is in no repository. *)
Lemma fetch_main_first_failure_witness :
  let X := host 0 (Some 12) closure in
  let res := returned (fetch_main X recursive ["app"; "more"] nothing) in
  (fst res = 0 /\
   exists w1,
     fetch_args X recursive db ["app"; "more"] 0 (emit (Db_open 0) nothing)
       = Continue 0 w1 /\
     snd res = apk_db_close w1)
  \/
  (fst res <> 0 /\
   exists before arg after w1 w2,
     ["app"; "more"] = before ++ arg :: after /\
     fetch_args X recursive db before 0 (emit (Db_open 0) nothing) = Continue 0 w1 /\
     fetch_arg X recursive db arg w1 = Leave (fst res) w2 /\
     snd res = apk_db_close w2).
Proof.
  intros X res.
  apply (fetch_main_first_failure X recursive db ["app"; "more"] nothing).
  - reflexivity.
  - vm_compute. reflexivity.
Defined.

(** X17 on a closure that is fetched whole. *)
Lemma fetch_main_success_releases_sessions_witness :
  let X := host 0 (Some 12) sound in
  w_states (snd (returned (fetch_main X recursive ["app"; "more"] nothing)))
    ⊆ w_states nothing.
Proof.
  intros X.
  apply (fetch_main_success_releases_sessions X recursive ["app"; "more"] nothing).
  vm_compute. reflexivity.
Defined.

(** X18 on the same run. *)
Lemma fetch_main_closes_database_witness :
  let X := host 0 (Some 12) sound in
  let res := returned (fetch_main X recursive ["app"] nothing) in
  (fst (apk_db_open X) <> 0 /\ fst res = fst (apk_db_open X) /\
   w_trace (snd res) = [Db_open (fst res)])
  \/
  (fst (apk_db_open X) = 0 /\
   exists mid, w_trace (snd res) = Db_open 0 :: mid ++ [Db_close] /\ Forall inner mid).
Proof.
  intros X res.
  apply (fetch_main_closes_database X recursive ["app"] nothing (fst res) (snd res)).
  - vm_compute. reflexivity.
  - reflexivity.
Defined.

(** X19 in recursive mode. *)
Lemma fetch_main_returns_witness :
  let X := host 0 (Some 12) sound in
  exists r w', fetch_main X recursive ["app"] nothing = Some (r, w').
Proof.
  intros X. apply (fetch_main_returns X recursive ["app"] nothing).
  left. reflexivity.
Defined.

(** X20 on an engine that cannot lock the closure. *)
Lemma fetch_main_lock_failure_witness :
  let X := host 0 (Some 12) (-1, []) in
  let w1 := emit (Db_open 0) nothing in
  exists w',
    fetch_main X recursive ([] ++ "app" :: ["more"]) nothing = Some (-1, w') /\
    since w1 w'
      [State_new (w_next_state w1); State_unref (w_next_state w1);
       Error ("Unable to install '" +:+ name_name (apk_db_get_name db "app") +:+ "'");
       Db_close] /\
    w_states w' ⊆ w_states w1 /\
    w_fs w' = w_fs w1 /\ w_inodes w' = w_inodes w1.
Proof.
  intros X w1.
  apply (fetch_main_lock_failure X recursive db [] "app" ["more"] nothing 0 w1 (-1) []).
  - reflexivity.
  - reflexivity.
  - reflexivity.
  - reflexivity.
  - lia.
Defined.

(** X21 on a name without variants. *)
Lemma fetch_main_no_variants_witness :
  let X := host 0 (Some 12) idle in
  fetch_main X into_cwd ([] ++ "nosuch" :: ["hello"]) nothing =
    Some (-1, apk_db_close
                (apk_message ("Unable to get '" +:+
                              name_name (apk_db_get_name db "nosuch") +:+ "'")
                   (emit (Db_open 0) nothing))).
Proof.
  intros X.
  apply (fetch_main_no_variants X into_cwd db [] "nosuch" ["hello"] nothing 0).
  - reflexivity.
  - reflexivity.
  - reflexivity.
  - reflexivity.
Defined.

(** X22 on the name with the variants 1.0, 1.2, 1.1. *)
Lemma fetch_args_non_recursive_witness :
  let X := host 0 (Some 12) idle in
  let w' := ended (fetch_args X into_cwd db ["hello"] 0 nothing) in
  (length (calls (w_trace w')) <= length ["hello"])%nat /\
  (forall pkg, pkg ∈ calls (w_trace w') ->
     exists arg items,
       arg ∈ ["hello"] /\ name_pkgs (apk_db_get_name db arg) = Some items /\
       pkg ∈ items) /\
  sessions w' = sessions nothing.
Proof.
  intros X w'.
  apply (fetch_args_non_recursive X into_cwd db ["hello"] 0 nothing w').
  - reflexivity.
  - vm_compute. reflexivity.
  - reflexivity.
Defined.

(** X23 on a mask with a bit beyond the slots. *)
Lemma find_repo_low_bits_witness :
  let X := host 0 None idle in
  find_repo X pkg12 = find_repo X beyond.
Proof.
  intros X. apply (find_repo_low_bits X pkg12 beyond).
  intros j Hj. change (APK_MAX_REPOS X) with 32%nat in Hj.
  change (pkg_repos beyond) with (Z.lor 1 (2 ^ 40)).
  rewrite Z.lor_spec, (Z.pow2_bits_false 40) by lia. symmetry. apply orb_false_r.
Defined.

(** X24 on the default directory. *)
Lemma path_buffers_bounded_witness :
  let X := host 0 None idle in
  (String.length (outfile X into_cwd pkg12) <= 255)%nat /\
  (exists rest,
     apk_path (match outdir into_cwd with Some d => d | None => "." end) pkg12 =
       outfile X into_cwd pkg12 +:+ rest) /\
  (String.length (infile db pkg12 0) <= 255)%nat /\
  (exists rest,
     apk_path (url (db_repos db 0)) pkg12 = infile db pkg12 0 +:+ rest).
Proof.
  intros X. apply (path_buffers_bounded X into_cwd db pkg12 0). reflexivity.
Defined.
